(** * Adaptive replication engine of [tmp/data-sync/ecosense_sync.py]

    A shallow embedding of [ProductionClient._adaptive_delay],
    [ProductionClient.bulk_insert] and
    [EcosenseSync._sync_all_data_paginated], and the properties of the
    rate controller, the batch dispatcher and the paginated orchestrator.

    Python [float] is IEEE 754 binary64: the delay is a primitive
    [float], whose operations are specified by the Standard Library's
    [FloatAxioms] against [SpecFloat].  Python [int] is [Z]. *)

From Stdlib Require Import ZArith List Bool Lia Floats.
Import ListNotations.

Set Warnings "-inexact-float,-abstract-large-number".

Local Open Scope Z_scope.

(** ** Python numerics *)

Module Py.

(** [max(a, b)] on floats: the first argument is kept unless the second
    is strictly greater (so a NaN second argument yields [a]). *)
Definition max (a b : float) : float := if (a <? b)%float then b else a.

(** [min(a, b)] on floats: the first argument is kept unless the second
    is strictly smaller. *)
Definition min (a b : float) : float := if (b <? a)%float then b else a.

(** Conversion of an [int] operand of [int * float]: the nearest
    binary64 value, ties to even.  (Python raises [OverflowError] for
    magnitudes of 2^1024 and more, where this yields an infinity.) *)
Definition float_of_int (n : Z) : float :=
  SF2Prim (binary_normalize prec emax n 0 false).

(** [int(x)]: truncation toward zero.  (Python raises on an infinity or
    a NaN, which no batch size below 2^1023 leads to; the model yields
    0 there.) *)
Definition int (x : float) : Z :=
  match Prim2SF x with
  | S754_finite s m e =>
      let a := match e with
               | Zneg k => Z.shiftr (Zpos m) (Zpos k)
               | _ => Z.shiftl (Zpos m) e
               end in
      if s then - a else a
  | _ => 0
  end.

(** [b ** n] for a float base and a small non-negative [int] exponent
    (the powers of 2.0 and 1.5 up to the fourth are exact in binary64). *)
Fixpoint pow (b : float) (n : nat) : float :=
  match n with
  | O => 1%float
  | S k => (b * pow b k)%float
  end.

End Py.

(** ** Rate state: the adaptive fields of [ProductionClient] *)

Record RateState := mkRate {
  current_batch_size : Z;
  current_delay : float;
  success_count : Z;
  failure_count : Z
}.

(** Attributes set once in [__init__] and never assigned again. *)
Definition base_batch_size : Z := 1000.
Definition base_delay : float := 0.6%float.
Definition max_retries : nat := 5.
Definition backoff_multiplier : float := 2.0%float.

(** The state [__init__] leaves behind. *)
Definition init_rate : RateState :=
  {| current_batch_size := base_batch_size;
     current_delay := base_delay;
     success_count := 0;
     failure_count := 0 |}.

(** [ProductionClient._adaptive_delay]. *)
Definition _adaptive_delay (success was_rate_limited : bool)
    (self : RateState) : RateState :=
  if success && negb was_rate_limited then
    let sc := success_count self + 1 in
    if 3 <=? sc then
      {| current_delay := Py.max 0.5 (current_delay self * 0.9);
         current_batch_size :=
           Z.min 5000
             (Py.int (Py.float_of_int (current_batch_size self) * 1.1));
         success_count := 0;
         failure_count := 0 |}
    else
      {| current_delay := current_delay self;
         current_batch_size := current_batch_size self;
         success_count := sc;
         failure_count := 0 |}
  else if was_rate_limited then
    {| current_delay :=
         Py.min 60.0 (current_delay self * backoff_multiplier);
       current_batch_size :=
         Z.max 200
           (Py.int (Py.float_of_int (current_batch_size self) * 0.5));
       success_count := 0;
       failure_count := failure_count self + 1 |}
  else
    {| current_delay := Py.min 30.0 (current_delay self * 1.5);
       current_batch_size := current_batch_size self;
       success_count := 0;
       failure_count := failure_count self + 1 |}.

(** A sequence of controller calls, oldest first. *)
Definition adapt_all (calls : list (bool * bool)) (s : RateState)
    : RateState :=
  fold_left (fun st c => _adaptive_delay (fst c) (snd c) st) calls s.

(** ** The transition table of the specification (section 4.2)

    Written from the specification's words, to be compared with
    [_adaptive_delay]: the outcome kinds, the named bounds, and a batch
    size scaled in exact arithmetic and truncated. *)

Inductive BatchOutcome := Success | RateLimited | OtherFailure.

Definition min_delay : float := 0.5%float.
Definition max_delay : float := 60%float.
Definition other_failure_ceiling : float := 30%float.
Definition min_batch : Z := 200.
Definition max_batch : Z := 5000.

(** The outcome kind the two flags of a controller call stand for. *)
Definition outcome_of (success was_rate_limited : bool) : BatchOutcome :=
  if was_rate_limited then RateLimited
  else if success then Success else OtherFailure.

Definition floored_at (lo x : float) : float :=
  if (lo <? x)%float then x else lo.

Definition capped_at (hi x : float) : float :=
  if (x <? hi)%float then x else hi.

Definition aimd_table (o : BatchOutcome) (s : RateState) : RateState :=
  match o with
  | Success =>
      if 3 <=? success_count s + 1 then
        {| current_delay := floored_at min_delay (current_delay s * 0.9);
           current_batch_size :=
             Z.min max_batch (current_batch_size s * 11 / 10);
           success_count := 0;
           failure_count := 0 |}
      else
        {| current_delay := current_delay s;
           current_batch_size := current_batch_size s;
           success_count := success_count s + 1;
           failure_count := 0 |}
  | RateLimited =>
      {| current_delay :=
           capped_at max_delay (current_delay s * backoff_multiplier);
         current_batch_size := Z.max min_batch (current_batch_size s / 2);
         success_count := 0;
         failure_count := failure_count s + 1 |}
  | OtherFailure =>
      {| current_delay :=
           capped_at other_failure_ceiling (current_delay s * 1.5);
         current_batch_size := current_batch_size s;
         success_count := 0;
         failure_count := failure_count s + 1 |}
  end.

(** The bounds of the data model: [delay] in [[min_delay, max_delay]]
    and [batch_size] in [[min_batch, max_batch]]. *)
Definition delay_in_range (d : float) : Prop :=
  (min_delay <=? d)%float = true /\ (d <=? max_delay)%float = true.

Definition batch_in_range (b : Z) : Prop := min_batch <= b <= max_batch.

Definition rate_bounded (s : RateState) : Prop :=
  batch_in_range (current_batch_size s) /\ delay_in_range (current_delay s).

(** A check of [f] on 0, ..., k-1. *)
Fixpoint all_below (f : Z -> bool) (k : nat) : bool :=
  match k with
  | O => true
  | S k' => f (Z.of_nat k') && all_below f k'
  end.

(** The two integer scalings of the controller agree with exact
    arithmetic at [n]. *)
Definition scaling_exact_at (n : Z) : bool :=
  (Py.int (Py.float_of_int n * 1.1) =? n * 11 / 10)
  && (Py.int (Py.float_of_int n * 0.5) =? n / 2).

(** ** The remote endpoint and the staging table, as the client sees them *)

(** What one [requests.post] attempt comes back with.  [Raised] is any
    exception other than [requests.exceptions.Timeout] inside the
    attempt's [try] (a transport error, or an undecodable body of a 200
    response, which fails before the controller is called). *)
Inductive Response :=
| Status (code : Z)
| TimedOut
| Raised.

(** The three kinds of [time.sleep] call, by the statement that makes it. *)
Inductive SleepSite :=
| RetryBackoff   (* inside the retry loop of a batch *)
| BatchPacing    (* between two successful batches of one call *)
| PagePacing.    (* [time.sleep(1)] at the end of a page *)

Section Engine.

Variables Row DataPoint : Type.

(** The dict built from one row of the staging table (the conversion
    of a stored row does not raise). *)
Variable to_point : Row -> DataPoint.

(** The endpoint's answer to the n-th POST of the run (from 0). *)
Variable server : nat -> Response.

(** The rows of [ecosense.timeseries_data] in the order of the query
    ([ORDER BY timestamp DESC]); no writer changes it during the run, and
    the queries succeed. *)
Variable table : list Row.

(** Observable actions, in the order they happen. *)
Inductive Event :=
| EvPost (batch : list DataPoint)          (* POST .../bulk-insert *)
| EvAdapt (success was_rate_limited : bool) (* call of _adaptive_delay *)
| EvSleep (site : SleepSite) (secs : float) (* time.sleep *)
| EvCount                                   (* SELECT COUNT( * ) *)
| EvFetch (limit offset : Z) (rows : list Row). (* SELECT ... LIMIT OFFSET *)

(** The client between two statements: its adaptive fields and the
    number of POSTs issued so far. *)
Record World := mkWorld {
  rate : RateState;
  posts : nat
}.

(** Statements run in a state-and-trace monad. *)
Definition M (A : Type) : Type := World -> A * World * list Event.

Definition ret {A} (a : A) : M A := fun w => (a, w, []).

Definition bind {A B} (m : M A) (k : A -> M B) : M B :=
  fun w =>
    let '(a, w1, t1) := m w in
    let '(b, w2, t2) := k a w1 in
    (b, w2, t1 ++ t2).

Notation "x <- m ;; k" := (bind m (fun x => k))
  (at level 61, m at next level, right associativity).
Notation "m ;;; k" := (bind m (fun _ => k))
  (at level 61, right associativity).

Definition post (batch : list DataPoint) : M Response :=
  fun w => (server (posts w),
            {| rate := rate w; posts := S (posts w) |},
            [EvPost batch]).

Definition adapt (success was_rate_limited : bool) : M unit :=
  fun w => (tt,
            {| rate := _adaptive_delay success was_rate_limited (rate w);
               posts := posts w |},
            [EvAdapt success was_rate_limited]).

(** [time.sleep(secs)]; it returns normally for the non-negative finite
    durations a rate state within its bounds leads to. *)
Definition sleep (site : SleepSite) (secs : float) : M unit :=
  fun w => (tt, w, [EvSleep site secs]).

Definition get_delay : M float :=
  fun w => (current_delay (rate w), w, []).

Definition get_batch_size : M Z :=
  fun w => (current_batch_size (rate w), w, []).

(** *** [ProductionClient.bulk_insert] *)

(** How one pass through the body of the retry loop ends. *)
Inductive Attempt := Break | Continue | ReturnFalse.

Definition is_last (attempt : nat) : bool :=
  negb (Nat.ltb attempt (max_retries - 1)).

(** The body of [for attempt in range(self.max_retries)]. *)
Definition attempt_body (batch : list DataPoint) (attempt : nat)
    : M Attempt :=
  r <- post batch ;;
  match r with
  | Status code =>
      if code =? 200 then
        adapt true false ;;; ret Break
      else if code =? 429 then
        d <- get_delay ;;
        adapt false true ;;;
        sleep RetryBackoff (d * Py.pow backoff_multiplier attempt) ;;;
        ret Continue
      else
        adapt false false ;;;
        if is_last attempt then ret ReturnFalse
        else
          d <- get_delay ;;
          sleep RetryBackoff (d * Py.pow 1.5 attempt) ;;; ret Continue
  | TimedOut =>
      if is_last attempt then ret ReturnFalse
      else
        d <- get_delay ;;
        sleep RetryBackoff (d * Py.pow 1.5 attempt) ;;; ret Continue
  | Raised =>
      if is_last attempt then ret ReturnFalse
      else
        d <- get_delay ;; sleep RetryBackoff d ;;; ret Continue
  end.

(** The retry loop over the attempts still to make; [true] is
    [batch_success], [false] is either [return False] inside the loop or
    the [if not batch_success: return False] after it. *)
Fixpoint retry_loop (batch : list DataPoint) (attempts : list nat)
    : M bool :=
  match attempts with
  | [] => ret false
  | attempt :: later =>
      a <- attempt_body batch attempt ;;
      match a with
      | Break => ret true
      | Continue => retry_loop batch later
      | ReturnFalse => ret false
      end
  end.

Definition send_batch (batch : list DataPoint) : M bool :=
  retry_loop batch (seq 0 max_retries).

(** [range(0, stop, step)] for a non-zero step. *)
Definition py_range (stop step : Z) : list Z :=
  let count :=
    if 0 <? step then (if 0 <? stop then (stop + step - 1) / step else 0)
    else (if stop <? 0 then (- stop + - step - 1) / (- step) else 0) in
  map (fun k => Z.of_nat k * step) (seq 0 (Z.to_nat count)).

(** [xs[i : j]] for [0 <= i]. *)
Definition slice {A} (xs : list A) (i j : Z) : list A :=
  firstn (Z.to_nat (j - i)) (skipn (Z.to_nat i) xs).

(** [batch_size or self.current_batch_size]. *)
Definition py_or (batch_size : option Z) (current : Z) : Z :=
  match batch_size with
  | Some b => if b =? 0 then current else b
  | None => current
  end.

(** [if i + effective_batch_size < total_points:
    time.sleep(self.current_delay)], after a successful batch. *)
Definition pace_batches (data_points : list DataPoint)
    (effective_batch_size i : Z) : M unit :=
  if i + effective_batch_size <? Z.of_nat (length data_points) then
    d <- get_delay ;; sleep BatchPacing d
  else ret tt.

(** The loop [for i in range(0, total_points, effective_batch_size)]. *)
Fixpoint batch_loop (data_points : list DataPoint)
    (effective_batch_size : Z) (indices : list Z) : M bool :=
  match indices with
  | [] => ret true
  | i :: later =>
      ok <- send_batch (slice data_points i (i + effective_batch_size)) ;;
      if ok then
        pace_batches data_points effective_batch_size i ;;;
        batch_loop data_points effective_batch_size later
      else ret false
  end.

Definition bulk_insert (data_points : list DataPoint)
    (batch_size : option Z) : M bool :=
  match data_points with
  | [] => ret true
  | _ :: _ =>
      current <- get_batch_size ;;
      let effective_batch_size := py_or batch_size current in
      if effective_batch_size =? 0 then
        ret false  (* range() raises ValueError; the outer handler returns False *)
      else
        batch_loop data_points effective_batch_size
          (py_range (Z.of_nat (length data_points)) effective_batch_size)
  end.

(** *** [EcosenseSync._sync_all_data_paginated] *)

Definition count_rows : M Z :=
  fun w => (Z.of_nat (length table), w, [EvCount]).

(** [SELECT ... ORDER BY timestamp DESC LIMIT limit OFFSET offset]. *)
Definition page_of (limit offset : Z) : list Row :=
  firstn (Z.to_nat limit) (skipn (Z.to_nat offset) table).

Definition fetch (limit offset : Z) : M (list Row) :=
  fun w => (page_of limit offset, w,
            [EvFetch limit offset (page_of limit offset)]).

(** The [while True] loop; [None] when the fuel runs out before the loop
    is left (it never does from [sync_pages], see [page_loop_total]). *)
Fixpoint page_loop (fuel : nat) (batch_size : Z) (dry_run : bool)
    (page_size offset : Z) : M (option bool) :=
  match fuel with
  | O => ret None
  | S fuel' =>
      stop <- (if offset =? 0 then count_rows ;;; ret dry_run
               else ret false) ;;
      if (stop : bool) then ret (Some true)
      else
        rows <- fetch page_size offset ;;
        match rows with
        | [] => ret (Some true)
        | _ :: _ =>
            ok <- bulk_insert (map to_point rows) (Some batch_size) ;;
            if ok then
              sleep PagePacing 1 ;;;
              page_loop fuel' batch_size dry_run page_size
                (offset + page_size)
            else ret (Some false)
        end
  end.

(** The function for a given page size. *)
Definition sync_pages (page_size batch_size : Z) (dry_run : bool)
    : M (option bool) :=
  page_loop (S (length table)) batch_size dry_run page_size 0.

(** [page_size = 25000  # Process 25k records at a time] *)
Definition page_size : Z := 25000.

Definition _sync_all_data_paginated (batch_size : Z) (dry_run : bool)
    : M (option bool) :=
  sync_pages page_size batch_size dry_run.

(** *** Reading a trace *)

(** The controller calls one attempt's response leads to. *)
Definition controller_calls (r : Response) : list (bool * bool) :=
  match r with
  | Status code =>
      if code =? 200 then [(true, false)]
      else if code =? 429 then [(false, true)]
      else [(false, false)]
  | TimedOut | Raised => []
  end.

(** The responses to the [n] POSTs from the [p]-th on. *)
Definition responses_from (p n : nat) : list Response :=
  map server (seq p n).

(** The page-level events of a trace: the page queries and the pauses
    at the end of a page. *)
Definition is_page_event (e : Event) : bool :=
  match e with
  | EvFetch _ _ _ | EvSleep PagePacing _ => true
  | _ => false
  end.

Definition page_events (t : list Event) : list Event :=
  filter is_page_event t.

(** The non-empty pages of the table for a page size: the
    ceil(N / page_size) slices at the multiples of the page size. *)
Definition page_count (page_size : Z) : Z :=
  (Z.of_nat (length table) + page_size - 1) / page_size.

Definition expected_pages (page_size : Z) : list (list Row) :=
  map (fun k => page_of page_size (Z.of_nat k * page_size))
      (seq 0 (Z.to_nat (page_count page_size))).

(** The page-level trace of a run over [k] non-empty pages from an
    offset on: each page query is followed by the pause, and the run
    ends with the query that finds no rows. *)
Fixpoint page_skeleton (page_size offset : Z) (k : nat) : list Event :=
  match k with
  | O => [EvFetch page_size offset []]
  | S k' =>
      EvFetch page_size offset (page_of page_size offset)
      :: EvSleep PagePacing 1
      :: page_skeleton page_size (offset + page_size) k'
  end.

(** The events a call of [bulk_insert] can produce. *)
Definition dispatch_event (e : Event) : Prop :=
  match e with
  | EvPost _ | EvAdapt _ _ => True
  | EvSleep site _ => site <> PagePacing
  | EvCount | EvFetch _ _ _ => False
  end.

Definition posted (t : list Event) : list (list DataPoint) :=
  flat_map (fun e => match e with EvPost b => [b] | _ => [] end) t.

Definition adapts (t : list Event) : list (bool * bool) :=
  flat_map (fun e => match e with EvAdapt s r => [(s, r)] | _ => [] end) t.

Definition fetched (t : list Event) : list (list Row) :=
  flat_map (fun e => match e with EvFetch _ _ r => [r] | _ => [] end) t.

End Engine.

Arguments EvPost {Row DataPoint} batch.
Arguments EvAdapt {Row DataPoint} success was_rate_limited.
Arguments EvSleep {Row DataPoint} site secs.
Arguments EvCount {Row DataPoint}.
Arguments EvFetch {Row DataPoint} limit offset rows.
Arguments ret {Row DataPoint A} a w.
Arguments bind {Row DataPoint A B} m k w.
Arguments post {Row DataPoint} server batch w.
Arguments adapt {Row DataPoint} success was_rate_limited w.
Arguments sleep {Row DataPoint} site secs w.
Arguments get_delay {Row DataPoint} w.
Arguments get_batch_size {Row DataPoint} w.
Arguments attempt_body {Row DataPoint} server batch attempt w.
Arguments retry_loop {Row DataPoint} server batch attempts w.
Arguments send_batch {Row DataPoint} server batch w.
Arguments pace_batches {Row DataPoint} data_points effective_batch_size
  i w.
Arguments batch_loop {Row DataPoint} server data_points
  effective_batch_size indices w.
Arguments bulk_insert {Row DataPoint} server data_points batch_size w.
Arguments count_rows {Row DataPoint} table w.
Arguments page_of {Row} table limit offset.
Arguments fetch {Row DataPoint} table limit offset w.
Arguments page_loop {Row DataPoint} to_point server table fuel batch_size
  dry_run page_size offset w.
Arguments sync_pages {Row DataPoint} to_point server table page_size
  batch_size dry_run w.
Arguments _sync_all_data_paginated {Row DataPoint} to_point server table
  batch_size dry_run w.
Arguments posted {Row DataPoint} t.
Arguments adapts {Row DataPoint} t.
Arguments fetched {Row DataPoint} t.
Arguments dispatch_event {Row DataPoint} e.
Arguments is_page_event {Row DataPoint} e.
Arguments page_events {Row DataPoint} t.
Arguments page_skeleton {Row DataPoint} table page_size offset k.
Arguments page_count {Row} table page_size.
Arguments expected_pages {Row} table page_size.

(** ** Sample inputs *)

(** A client right after [__init__], before any POST. *)
Definition fresh_world : World := {| rate := init_rate; posts := 0 |}.

(** An endpoint that accepts every request. *)
Definition always_ok : nat -> Response := fun _ => Status 200.

(** An endpoint that answers the first request with 429 and accepts the
    rest. *)
Definition limited_once : nat -> Response :=
  fun n => match n with O => Status 429 | S _ => Status 200 end.

(** An endpoint that fails every request with status 500. *)
Definition always_down : nat -> Response := fun _ => Status 500.

(** A staging table of 60000 rows. *)
Definition table_60000 : list unit := repeat tt (Z.to_nat 60000).
From Stdlib Require String Ascii.
Import Ascii.AsciiSyntax.
Delimit Scope char_scope with char.
Delimit Scope string_scope with string.

(** ** What the endpoint accepted, and the sleeps of a trace *)

(** Whether a response is the status 200 that [bulk_insert] takes as
    success. *)
Definition is_ok (r : Response) : bool :=
  match r with
  | Status code => code =? 200
  | TimedOut | Raised => false
  end.

(** Of the batches posted from the [p]-th POST on, in order, those the
    endpoint answered with 200. *)
Fixpoint accepted_of {DataPoint : Type} (server : nat -> Response)
    (p : nat) (batches : list (list DataPoint)) : list (list DataPoint) :=
  match batches with
  | [] => []
  | b :: later =>
      (if is_ok (server p) then [b] else [])
      ++ accepted_of server (S p) later
  end.

(** The durations of the sleeps of one kind, in order. *)
Definition sleeps {Row DataPoint : Type} (site : SleepSite)
    (t : list (Event Row DataPoint)) : list float :=
  flat_map (fun e =>
              match e with
              | EvSleep s secs =>
                  match site, s with
                  | RetryBackoff, RetryBackoff
                  | BatchPacing, BatchPacing
                  | PagePacing, PagePacing => [secs]
                  | _, _ => []
                  end
              | _ => []
              end) t.

(** The index list of the loop in [bulk_insert] for a batch size. *)
Definition batch_indices {DataPoint : Type} (data_points : list DataPoint)
    (effective_batch_size : Z) : list Z :=
  py_range (Z.of_nat (length data_points)) effective_batch_size.

(** Whether a response is the status 429 of a rate limit. *)
Definition is_429 (r : Response) : bool :=
  match r with
  | Status code => code =? 429
  | TimedOut | Raised => false
  end.

(** The POSTs and the backoff sleeps of a trace, in order. *)
Inductive RetryStep := DoPost | DoBackoff.

Definition retry_steps {Row DataPoint : Type}
    (t : list (Event Row DataPoint)) : list RetryStep :=
  flat_map (fun e =>
              match e with
              | EvPost _ => [DoPost]
              | EvSleep RetryBackoff _ => [DoBackoff]
              | _ => []
              end) t.

(** ** Stage 2: [EcosenseSync.sync_local_to_production] *)

(** [ProductionClient.test_connection]: whether [GET .../health] is
    answered with status 200 (any other status, a timeout and an
    exception give [False]). *)
Definition test_connection (health : Response) : bool := is_ok health.

(** A Python string as a condition: the empty string is false. *)
Definition str_truthy (s : String.string) : bool :=
  negb (String.eqb s String.EmptyString).

Section Stage2.

Variables Row DataPoint : Type.
Variable to_point : Row -> DataPoint.
Variable server : nat -> Response.
Variable table : list Row.

(** The answer to the health request of the run. *)
Variable health : Response.

(** The rows of the staging table with
    [created_at >= NOW() - INTERVAL 'd days'], in the order of the query
    ([ORDER BY timestamp DESC]); the query succeeds. *)
Variable recent_rows : Z -> list Row.

(** The [timeseries_id] column of a row. *)
Variable timeseries_id_of : Row -> String.string.

(** [LocalDatabaseSync.get_unsent_data].  A [LIMIT] below zero is
    rejected by the database and the handler returns the empty list,
    which is also what [firstn] of no rows gives.  With [days_back] as
    [None] the base query has no [WHERE], so the text
    [" AND timeseries_id = %s"] appended for a series makes a statement
    the database rejects: the handler returns the empty list. *)
Definition get_unsent_data (batch_size : Z)
    (timeseries_id : option String.string) (days_back : option Z)
    : list DataPoint :=
  let effective_batch_size :=
    match days_back with
    | None => Z.min (batch_size * 50) 50000
    | Some _ => batch_size
    end in
  let series :=
    match timeseries_id with
    | Some s => if str_truthy s then Some s else None
    | None => None
    end in
  match days_back, series with
  | None, Some _ => []
  | None, None =>
      map to_point (firstn (Z.to_nat effective_batch_size) table)
  | Some d, Some s =>
      map to_point
        (firstn (Z.to_nat effective_batch_size)
           (filter (fun r => String.eqb (timeseries_id_of r) s)
              (recent_rows d)))
  | Some d, None =>
      map to_point (firstn (Z.to_nat effective_batch_size) (recent_rows d))
  end.

(** The result is [None] only when the paginated run is out of fuel,
    which it never is. *)
Definition sync_local_to_production (batch_size : Z) (dry_run : bool)
    (days_back : option Z) : M Row DataPoint (option bool) :=
  if negb (test_connection health) then ret (Some false)
  else
    match days_back with
    | None => _sync_all_data_paginated to_point server table batch_size dry_run
    | Some d =>
        let data_points := get_unsent_data (batch_size * 10) None (Some d) in
        match data_points with
        | [] => ret (Some true)
        | _ :: _ =>
            if dry_run then ret (Some true)
            else
              bind (bulk_insert server data_points (Some batch_size))
                   (fun ok => ret (Some ok))
        end
    end.

End Stage2.

Arguments get_unsent_data {Row DataPoint} to_point table recent_rows
  timeseries_id_of batch_size timeseries_id days_back.
Arguments sync_local_to_production {Row DataPoint} to_point server table
  health recent_rows timeseries_id_of batch_size dry_run days_back w.

(** ** Stage 1: [EcosenseSync.sync_aquarius_to_local] *)

Section Stage1.

Variables Sensor DataPoint : Type.

(** Whether [AquariusClient.connect] succeeds, and whether
    [LocalDatabaseSync.test_connection] does. *)
Variable connect : bool.
Variable local_test_connection : bool.

(** The sensors [AquariusClient.get_ecosense_sensors] returns. *)
Variable get_ecosense_sensors : bool -> list Sensor.

Variable timeseries_identifier : Sensor -> String.string.

(** The data points [AquariusClient.get_sensor_data] returns for a
    sensor and a window of so many days (the empty list when the request
    fails: the function handles its exceptions). *)
Variable get_sensor_data : Z -> Sensor -> list DataPoint.

(** Whether the n-th write to the staging table (from 0) succeeds. *)
Variable stored : nat -> bool.

(** [LocalDatabaseSync.bulk_insert_local], as the n-th write. *)
Definition bulk_insert_local (n : nat) (data_points : list DataPoint)
    : bool :=
  match data_points with
  | [] => true
  | _ :: _ => stored n
  end.

Inductive Stage1Event :=
| EvConnect                               (* aquarius.connect() *)
| EvDisconnect                            (* aquarius.disconnect() *)
| EvTestLocal                             (* local_db.test_connection() *)
| EvListSensors (use_inventory : bool)    (* get_ecosense_sensors *)
| EvGetData (sensor : Sensor)             (* get_sensor_data *)
| EvStore (data_points : list DataPoint)  (* bulk_insert_local *)
| EvNap.                                  (* time.sleep(0.5) *)

(** The loop [for i, sensor in enumerate(sensors, 1)], with the number
    of writes made so far; it returns [success_count]. *)
Fixpoint sensor_loop (days_back : Z) (sensors : list Sensor)
    (writes : nat) (success_count : Z) : Z * list Stage1Event :=
  match sensors with
  | [] => (success_count, [])
  | sensor :: later =>
      match get_sensor_data days_back sensor with
      | [] =>
          let '(c, t) := sensor_loop days_back later writes success_count in
          (c, EvGetData sensor :: t)
      | p :: ps =>
          let ok := bulk_insert_local writes (p :: ps) in
          let '(c, t) :=
            sensor_loop days_back later (S writes)
              (if ok then success_count + 1 else success_count) in
          (c, EvGetData sensor :: EvStore (p :: ps) :: EvNap :: t)
      end
  end.

(** [if specific_sensors: sensors = [s for s in sensors if
    s.timeseries_identifier in specific_sensors]]. *)
Definition select_sensors (specific_sensors : option (list String.string))
    (sensors : list Sensor) : list Sensor :=
  match specific_sensors with
  | Some (x :: l) =>
      filter (fun s => existsb (String.eqb (timeseries_identifier s))
                         (x :: l)) sensors
  | Some [] | None => sensors
  end.

Definition sync_aquarius_to_local (days_back : Z)
    (use_inventory dry_run : bool)
    (specific_sensors : option (list String.string))
    : bool * list Stage1Event :=
  if negb connect then (false, [EvConnect])
  else
    let '(r, t) :=
      if negb local_test_connection then (false, [EvTestLocal])
      else
        match get_ecosense_sensors use_inventory with
        | [] => (false, [EvTestLocal; EvListSensors use_inventory])
        | s :: l =>
            let sensors := select_sensors specific_sensors (s :: l) in
            if dry_run then
              (true, [EvTestLocal; EvListSensors use_inventory])
            else
              let '(success_count, t) := sensor_loop days_back sensors 0 0 in
              (0 <? success_count,
               EvTestLocal :: EvListSensors use_inventory :: t)
        end in
    (* try ... finally: self.aquarius.disconnect() *)
    (r, EvConnect :: t ++ [EvDisconnect]).

Definition queried (t : list Stage1Event) : list Sensor :=
  flat_map (fun e => match e with EvGetData s => [s] | _ => [] end) t.

Definition stores (t : list Stage1Event) : list (list DataPoint) :=
  flat_map (fun e => match e with EvStore d => [d] | _ => [] end) t.

Definition naps (t : list Stage1Event) : nat :=
  length (filter (fun e => match e with EvNap => true | _ => false end) t).

Definition is_session_event (e : Stage1Event) : bool :=
  match e with EvConnect | EvDisconnect => true | _ => false end.

End Stage1.

Arguments EvConnect {Sensor DataPoint}.
Arguments EvDisconnect {Sensor DataPoint}.
Arguments EvTestLocal {Sensor DataPoint}.
Arguments EvListSensors {Sensor DataPoint} use_inventory.
Arguments EvGetData {Sensor DataPoint} sensor.
Arguments EvStore {Sensor DataPoint} data_points.
Arguments EvNap {Sensor DataPoint}.
Arguments bulk_insert_local {DataPoint} stored n data_points.
Arguments sensor_loop {Sensor DataPoint} get_sensor_data stored days_back
  sensors writes success_count.
Arguments select_sensors {Sensor} timeseries_identifier specific_sensors
  sensors.
Arguments sync_aquarius_to_local {Sensor DataPoint} connect
  local_test_connection get_ecosense_sensors timeseries_identifier
  get_sensor_data stored days_back use_inventory dry_run specific_sensors.
Arguments queried {Sensor DataPoint} t.
Arguments stores {Sensor DataPoint} t.
Arguments naps {Sensor DataPoint} t.
Arguments is_session_event {Sensor DataPoint} e.

(** ** Both stages: [EcosenseSync.sync_data] *)

Section Pipeline.

Variables Sensor Row DataPoint : Type.
Variable connect : bool.
Variable local_test_connection : bool.
Variable get_ecosense_sensors : bool -> list Sensor.
Variable timeseries_identifier : Sensor -> String.string.
Variable get_sensor_data : Z -> Sensor -> list DataPoint.
Variable stored : nat -> bool.
Variable to_point : Row -> DataPoint.
Variable server : nat -> Response.

(** The rows of the staging table as stage 1 has left them, in the
    order of the query of stage 2. *)
Variable table : list Row.
Variable health : Response.
Variable recent_rows : Z -> list Row.
Variable timeseries_id_of : Row -> String.string.

(** The result, the client after the run, and the traces of the two
    stages. *)
Definition sync_data (days_back : Z) (use_inventory dry_run : bool)
    (specific_sensors : option (list String.string)) (w : World)
    : option bool * World * list (Stage1Event Sensor DataPoint)
      * list (Event Row DataPoint) :=
  let '(stage1_success, t1) :=
    sync_aquarius_to_local connect local_test_connection
      get_ecosense_sensors timeseries_identifier get_sensor_data stored
      days_back use_inventory dry_run specific_sensors in
  if negb stage1_success || dry_run then (Some stage1_success, w, t1, [])
  else
    (* self.sync_local_to_production(dry_run=dry_run): batch_size=1000,
       days_back=None *)
    let '(stage2_success, w', t2) :=
      sync_local_to_production to_point server table health recent_rows
        timeseries_id_of 1000 dry_run None w in
    (option_map (andb stage1_success) stage2_success, w', t1, t2).

End Pipeline.

Arguments sync_data {Sensor Row DataPoint} connect local_test_connection
  get_ecosense_sensors timeseries_identifier get_sensor_data stored
  to_point server table health recent_rows timeseries_id_of days_back
  use_inventory dry_run specific_sensors w.

(** Whether a list of data points is one [if not data_points] lets
    through. *)
Definition has_points {A} (data_points : list A) : bool :=
  match data_points with [] => false | _ :: _ => true end.

(** ** [main]: the checks before a run and the choice of the run *)

Import String.StringSyntax.

(** The parsed command line. *)
Record Args := mkArgs {
  args_test : bool;
  args_local_only : bool;
  args_production_only : bool;
  args_stats : bool;
  args_days : Z;
  args_batch_size : Z;
  args_use_inventory : bool;
  args_dry_run : bool;
  args_sensors : option (list String.string);
  args_all_data : bool
}.

(** What [main] goes on to do once the checks have passed. *)
Inductive Action :=
| TestConnections
| ShowStats
| Stage1 (days_back : Z) (use_inventory dry_run : bool)
    (specific_sensors : option (list String.string))
| Stage2 (batch_size : Z) (dry_run : bool) (days_back : option Z)
| BothStages (days_back : Z) (use_inventory dry_run : bool)
    (specific_sensors : option (list String.string)).

Inductive Outcome :=
| MissingVariables (missing_vars : list String.string)  (* sys.exit(1) *)
| RaisesValueError          (* out of [EcosenseSync()], not handled *)
| Runs (action : Action).

Section Main.

Local Open Scope string_scope.

(** [os.getenv]. *)
Variable getenv : String.string -> option String.string.

(** Whether [int] accepts a string. *)
Variable int_accepts : String.string -> bool.

(** [os.getenv(var)] as a condition. *)
Definition env_set (var : String.string) : bool :=
  match getenv var with
  | Some s => str_truthy s
  | None => false
  end.

(** [os.getenv(var, default)]. *)
Definition getenv_or (var default : String.string) : String.string :=
  match getenv var with
  | Some s => s
  | None => default
  end.

Definition required_vars (args : Args) : list String.string :=
  ["AQUARIUS_HOSTNAME"; "AQUARIUS_USERNAME"; "AQUARIUS_PASSWORD"]
  ++ (if negb (args_local_only args) && negb (args_stats args)
      then ["REMOTE_DB_HOST"; "PG_PROXY_TOKEN"] else [])
  ++ (if negb (args_production_only args)
      then ["LOCAL_DB_HOST"; "LOCAL_DB_USER"; "LOCAL_DB_PASSWORD"]
      else []).

Definition missing_vars (args : Args) : list String.string :=
  filter (fun var => negb (env_set var)) (required_vars args).

(** Whether [EcosenseSync()] returns: [LocalDatabaseSync()] converts the
    port with [int], and [ProductionClient()] raises without a
    token. *)
Definition constructs : bool :=
  int_accepts (getenv_or "LOCAL_DB_PORT" "5432")
  && env_set "PG_PROXY_TOKEN".

Definition main (args : Args) : Outcome :=
  match missing_vars args with
  | _ :: _ => MissingVariables (missing_vars args)
  | [] =>
      if negb constructs then RaisesValueError
      else if args_test args then Runs TestConnections
      else if args_stats args then Runs ShowStats
      else if args_local_only args then
        Runs (Stage1 (args_days args) (args_use_inventory args)
                (args_dry_run args) (args_sensors args))
      else if args_production_only args then
        Runs (Stage2 (args_batch_size args) (args_dry_run args)
                (if args_all_data args then None else Some 7))
      else
        Runs (BothStages (args_days args) (args_use_inventory args)
                (args_dry_run args) (args_sensors args))
  end.

End Main.

(** ** Sensors: the fallback filter of [get_ecosense_sensors] *)

(** One entry of [TimeSeriesDescriptions], with the fields the filter
    reads (an absent field reads as the empty string). *)
Record Description := mkDescription {
  ts_parameter : String.string;
  ts_location_identifier : String.string;
  ts_label : String.string;
  ts_unique_id : String.string;
  ts_unit : String.string
}.

Record EcosenseSensor := mkEcosenseSensor {
  label : String.string;
  location_identifier : String.string;
  parameter : String.string;
  parameter_unit : String.string;
  timeseries_identifier : String.string;
  unique_id : String.string
}.

Section Sensors.

Local Open Scope string_scope.

Definition TARGET_PARAMETERS : list String.string :=
  ["Sapflow"; "StemRadialVar_Volt"; "BarPressure"; "SoilMoisture";
   "SoilTemp"].

(** [f"{parameter}.{label}@{location_id}"]. *)
Definition ts_identifier (parameter label location_id : String.string)
    : String.string :=
  String.append parameter
    (String.append "." (String.append label (String.append "@" location_id))).

(** The entries of Ecosense locations, and of them those of a target
    parameter, as sensors. *)
Definition basic_filtering (all_series : list Description)
    : list EcosenseSensor :=
  let ecosense_series :=
    filter (fun ts => String.prefix "Ecosense_" (ts_location_identifier ts))
      all_series in
  flat_map
    (fun ts =>
       if existsb (String.eqb (ts_parameter ts)) TARGET_PARAMETERS then
         [{| label := ts_label ts;
             location_identifier := ts_location_identifier ts;
             parameter := ts_parameter ts;
             parameter_unit := ts_unit ts;
             timeseries_identifier :=
               ts_identifier (ts_parameter ts) (ts_label ts)
                 (ts_location_identifier ts);
             unique_id := ts_unique_id ts |}]
       else [])
    ecosense_series.

(** Whether a character occurs in a string. *)
Fixpoint has_char (c : Ascii.ascii) (s : String.string) : bool :=
  match s with
  | String.EmptyString => false
  | String.String a rest => Ascii.eqb a c || has_char c rest
  end.

End Sensors.

(** ** More sample inputs *)

(** An endpoint that accepts the first request and fails the rest with
    status 500. *)
Definition ok_then_down : nat -> Response :=
  fun n => match n with O => Status 200 | S _ => Status 500 end.

(** Three sensors of which the second has no data, and a staging
    database whose first write fails. *)
Definition sample_sensor_data : Z -> nat -> list nat :=
  fun _ s => match s with 2%nat => [] | _ => [s] end.

Definition first_write_fails : nat -> bool :=
  fun n => match n with O => false | S _ => true end.

(** Two entries for the same series. *)
Definition sample_series : list Description :=
  [ {| ts_parameter := "Sapflow"; ts_location_identifier := "Ecosense_A";
       ts_label := "SF1"; ts_unique_id := "u1"; ts_unit := "mm" |};
    {| ts_parameter := "Sapflow"; ts_location_identifier := "Ecosense_A";
       ts_label := "SF1"; ts_unique_id := "u2"; ts_unit := "cm" |};
    {| ts_parameter := "AirTemp"; ts_location_identifier := "Ecosense_A";
       ts_label := "AT1"; ts_unique_id := "u3"; ts_unit := "C" |} ]%string.
(** * Properties *)

(** ** Binary64 facts behind the delay bounds *)

Module Binary64.

Lemma digits2_size (p : positive) : digits2_pos p = Pos.size p.
Proof. induction p; simpl; congruence. Qed.

Lemma digits2_unique (p : positive) (n : Z) :
  2 ^ (n - 1) <= Zpos p < 2 ^ n -> Zpos (digits2_pos p) = n.
Proof.
  intros [Hlo Hhi]. rewrite digits2_size.
  pose proof (Pos.size_gt p) as Hgt. pose proof (Pos.size_le p) as Hle.
  assert (Hgt' : Zpos p < 2 ^ Zpos (Pos.size p)).
  { rewrite <- Pos2Z.inj_pow. lia. }
  assert (Hle' : 2 ^ Zpos (Pos.size p) <= 2 * Zpos p).
  { rewrite <- Pos2Z.inj_pow. lia. }
  assert (Hn : 0 < n).
  { destruct (Z_lt_le_dec 0 n) as [|Hneg]; [assumption|].
    exfalso. destruct (Z.eq_dec n 0) as [->|]; [simpl in Hhi; lia|].
    rewrite (Z.pow_neg_r 2 n) in Hhi by lia. lia. }
  set (k := Zpos (Pos.size p)) in *.
  assert (Hk : 0 < k) by (unfold k; lia).
  destruct (Z.lt_trichotomy k n) as [Hlt | [Heq | Hgt2]]; [exfalso | assumption | exfalso].
  - assert (2 ^ k <= 2 ^ (n - 1)) by (apply Z.pow_le_mono_r; lia). lia.
  - assert (2 ^ n <= 2 ^ (k - 1)) by (apply Z.pow_le_mono_r; lia).
    replace k with (Z.succ (k - 1)) in Hle' by lia.
    rewrite Z.pow_succ_r in Hle' by lia. lia.
Qed.

Lemma iter_pos_nat {A} (f : A -> A) (p : positive) (x : A) :
  iter_pos f p x = Nat.iter (Pos.to_nat p) f x.
Proof.
  revert x. induction p as [p IH | p IH |]; intros x; cbn [iter_pos].
  - rewrite !IH, Pos2Nat.inj_xI.
    replace (S (2 * Pos.to_nat p)) with (Pos.to_nat p + (Pos.to_nat p + 1))%nat by lia.
    rewrite !Nat.iter_add. reflexivity.
  - rewrite !IH, Pos2Nat.inj_xO.
    replace (2 * Pos.to_nat p)%nat with (Pos.to_nat p + Pos.to_nat p)%nat by lia.
    rewrite Nat.iter_add. reflexivity.
  - reflexivity.
Qed.

Lemma shr_1_m (x : shr_record) :
  0 <= shr_m x -> shr_m (shr_1 x) = shr_m x / 2.
Proof.
  destruct x as [m r s]; simpl; intros Hm.
  destruct m as [|[p|p|]|p]; cbn -[Z.div]; try lia; try reflexivity.
  - rewrite Pos2Z.inj_xI. apply Z.div_unique with 1; lia.
  - rewrite Pos2Z.inj_xO. apply Z.div_unique with 0; lia.
Qed.

Lemma shr_iter_m (n : nat) (x : shr_record) :
  0 <= shr_m x -> shr_m (Nat.iter n shr_1 x) = shr_m x / 2 ^ Z.of_nat n.
Proof.
  intros Hm. induction n as [|n IH].
  - simpl. now rewrite Z.div_1_r.
  - assert (Hp : 0 < 2 ^ Z.of_nat n) by (apply Z.pow_pos_nonneg; lia).
    rewrite Nat2Z.inj_succ, Z.pow_succ_r by lia.
    change (Nat.iter (S n) shr_1 x) with (shr_1 (Nat.iter n shr_1 x)).
    rewrite shr_1_m.
    + rewrite IH, Z.div_div by lia. f_equal. lia.
    + rewrite IH. apply Z.div_pos; lia.
Qed.

Lemma round_nearest_even_range (m : Z) (l : location) :
  m <= round_nearest_even m l <= m + 1.
Proof.
  destruct l as [|[]]; simpl; try lia. destruct (Z.even m); lia.
Qed.


Lemma shr_fexp_shift (p : positive) (ex n : Z) :
  2 ^ (n - 1) <= Zpos p < 2 ^ n -> 53 < n -> -1074 <= n + ex - 53 ->
  exists r s,
    shr_fexp prec emax (Zpos p) ex loc_Exact =
    ({| shr_m := Zpos p / 2 ^ (n - 53); shr_r := r; shr_s := s |},
     ex + (n - 53)).
Proof.
  intros Hp Hn He. unfold shr_fexp, Zdigits2.
  rewrite (digits2_unique p n Hp). unfold fexp, SpecFloat.emin, prec, emax.
  rewrite Z.max_l by lia.
  replace (n + ex - 53 - ex) with (n - 53) by lia.
  destruct (n - 53) as [|k|k] eqn:Hk; try lia.
  unfold shr, shr_record_of_loc. rewrite iter_pos_nat.
  pose proof (shr_iter_m (Pos.to_nat k)
                {| shr_m := Zpos p; shr_r := false; shr_s := false |}) as Hm.
  simpl shr_m in Hm at 1 3. rewrite positive_nat_Z in Hm.
  destruct (Nat.iter _ _ _) as [m r s]. simpl in Hm.
  exists r, s. rewrite Hm by lia. reflexivity.
Qed.

Lemma shr_fexp_normal (q : positive) (e : Z) :
  2 ^ 52 <= Zpos q < 2 ^ 53 -> -1074 <= e ->
  shr_fexp prec emax (Zpos q) e loc_Exact =
  ({| shr_m := Zpos q; shr_r := false; shr_s := false |}, e).
Proof.
  intros Hq He. unfold shr_fexp, Zdigits2.
  rewrite (digits2_unique q 53) by exact Hq.
  unfold fexp, SpecFloat.emin, prec, emax.
  rewrite Z.max_l by lia.
  replace (53 + e - 53 - e) with 0 by lia. reflexivity.
Qed.

(** Rounding a positive product of more than 53 bits to binary64, away
    from the subnormal and the overflow range: the mantissa is the
    truncated quotient or its successor, renormalised on a carry. *)
Lemma binary_round_aux_pos (p : positive) (ex n : Z) :
  2 ^ (n - 1) <= Zpos p < 2 ^ n -> 53 < n ->
  -1074 <= n + ex - 53 -> n + ex - 53 < 971 ->
  exists (m : positive) (e : Z),
    binary_round_aux prec emax false (Zpos p) ex loc_Exact
    = S754_finite false m e /\
    2 ^ 52 <= Zpos m < 2 ^ 53 /\
    ((e = ex + (n - 53) /\
      Zpos p / 2 ^ (n - 53) <= Zpos m <= Zpos p / 2 ^ (n - 53) + 1)
     \/ (e = ex + (n - 53) + 1 /\ Zpos m = 2 ^ 52 /\
         Zpos p / 2 ^ (n - 53) = 2 ^ 53 - 1)).
Proof.
  intros Hp Hn Hlo Hhi.
  destruct (shr_fexp_shift p ex n Hp Hn Hlo) as (r & s & Hshr).
  unfold binary_round_aux. rewrite Hshr. cbn [shr_m].
  set (q := Zpos p / 2 ^ (n - 53)).
  assert (Hq : 2 ^ 52 <= q < 2 ^ 53).
  { unfold q.
    assert (Hk : 0 < 2 ^ (n - 53)) by (apply Z.pow_pos_nonneg; lia).
    assert (E1 : 2 ^ (n - 1) = 2 ^ 52 * 2 ^ (n - 53)).
    { rewrite <- Z.pow_add_r by lia. f_equal. lia. }
    assert (E2 : 2 ^ n = 2 ^ 53 * 2 ^ (n - 53)).
    { rewrite <- Z.pow_add_r by lia. f_equal. lia. }
    split.
    - apply Z.div_le_lower_bound; lia.
    - apply Z.div_lt_upper_bound; lia. }
  pose proof (round_nearest_even_range q
    (loc_of_shr_record {| shr_m := q; shr_r := r; shr_s := s |})) as Hr.
  set (q' := round_nearest_even q _) in *.
  destruct (Z_lt_le_dec q' (2 ^ 53)) as [Hlt | Hge].
  - destruct q' as [|m|m] eqn:Eq'; try lia.
    rewrite shr_fexp_normal by lia. cbn [shr_m].
    replace (ex + (n - 53) <=? emax - prec) with true
      by (symmetry; apply Z.leb_le; unfold emax, prec; lia).
    exists m, (ex + (n - 53)).
    split; [reflexivity|]. split; [lia|]. left; lia.
  - assert (Eq' : q' = 2 ^ 53) by lia. rewrite Eq'.
    unfold shr_fexp. cbn [Zdigits2 Z.pow Z.pow_pos Pos.iter Z.mul Pos.mul digits2_pos Pos.succ].
    unfold fexp, SpecFloat.emin, prec, emax.
    rewrite Z.max_l by lia.
    replace (54 + (ex + (n - 53)) - 53 - (ex + (n - 53))) with 1 by lia.
    cbn.
    replace (ex + (n - 53) + 1 <=? 971) with true
      by (symmetry; apply Z.leb_le; lia).
    exists 4503599627370496%positive, (ex + (n - 53) + 1).
    split; [reflexivity|]. split; [cbn; lia|]. right.
    split; [reflexivity|]. split; [reflexivity|]. fold q. lia.
Qed.


Lemma SFleb_pos (m1 m2 : positive) (e1 e2 : Z) :
  SFleb (S754_finite false m1 e1) (S754_finite false m2 e2) = true <->
  e1 < e2 \/ (e1 = e2 /\ Zpos m1 <= Zpos m2).
Proof.
  unfold SFleb, SFcompare. fold (Pos.compare m1 m2).
  destruct (Z.compare_spec e1 e2); [destruct (Pos.compare_spec m1 m2)| |];
    split; intros; try discriminate; try reflexivity; lia.
Qed.

Lemma SFltb_pos (m1 m2 : positive) (e1 e2 : Z) :
  SFltb (S754_finite false m1 e1) (S754_finite false m2 e2) = true <->
  e1 < e2 \/ (e1 = e2 /\ Zpos m1 < Zpos m2).
Proof.
  unfold SFltb, SFcompare. fold (Pos.compare m1 m2).
  destruct (Z.compare_spec e1 e2); [destruct (Pos.compare_spec m1 m2)| |];
    split; intros; try discriminate; try reflexivity; lia.
Qed.

(** A valid finite float with exponent above [emin] is normal. *)
Lemma valid_normal (x : float) (s : bool) (m : positive) (e : Z) :
  Prim2SF x = S754_finite s m e -> -1074 < e ->
  2 ^ 52 <= Zpos m < 2 ^ 53.
Proof.
  intros Hx He. pose proof (Prim2SF_valid x) as Hv. rewrite Hx in Hv.
  unfold SpecFloat.valid_binary, bounded, canonical_mantissa in Hv.
  apply andb_prop in Hv. destruct Hv as [Hc _].
  apply Z.eqb_eq in Hc. unfold fexp, SpecFloat.emin, prec, emax in Hc.
  assert (Hd : Zpos (digits2_pos m) = 53) by (clear Hx; lia).
  rewrite digits2_size in Hd. injection Hd as Hs.
  pose proof (Pos.size_gt m) as Hgt. pose proof (Pos.size_le m) as Hle.
  rewrite Hs in Hgt, Hle.
  change (2 ^ 53)%positive with 9007199254740992%positive in Hgt, Hle.
  apply Pos2Z.pos_lt_pos in Hgt. apply Pos2Z.pos_le_pos in Hle.
  rewrite (Pos2Z.inj_xO m) in Hle.
  change (2 ^ 52) with 4503599627370496.
  change (2 ^ 53) with 9007199254740992. clear - Hgt Hle. lia.
Qed.

(** The product of two positive normal floats, away from the subnormal
    and the overflow range. *)
Lemma mul_normal (x y : float) (mx my : positive) (ex ey : Z) :
  Prim2SF x = S754_finite false mx ex ->
  Prim2SF y = S754_finite false my ey ->
  2 ^ 52 <= Zpos mx < 2 ^ 53 -> 2 ^ 52 <= Zpos my < 2 ^ 53 ->
  -1000 <= ex + ey <= 800 ->
  exists (m : positive) (e : Z),
    Prim2SF (x * y) = S754_finite false m e /\
    2 ^ 52 <= Zpos m < 2 ^ 53 /\
    ((Zpos mx * Zpos my < 2 ^ 105 /\
      ((e = ex + ey + 52 /\
        Zpos mx * Zpos my / 2 ^ 52 <= Zpos m
          <= Zpos mx * Zpos my / 2 ^ 52 + 1)
       \/ (e = ex + ey + 53 /\ Zpos m = 2 ^ 52 /\
           Zpos mx * Zpos my / 2 ^ 52 = 2 ^ 53 - 1)))
     \/ (2 ^ 105 <= Zpos mx * Zpos my /\
         ((e = ex + ey + 53 /\
           Zpos mx * Zpos my / 2 ^ 53 <= Zpos m
             <= Zpos mx * Zpos my / 2 ^ 53 + 1)
          \/ (e = ex + ey + 54 /\ Zpos m = 2 ^ 52 /\
              Zpos mx * Zpos my / 2 ^ 53 = 2 ^ 53 - 1)))).
Proof.
  intros Hx Hy Nx Ny He.
  rewrite mul_spec, Hx, Hy. unfold SF64mul, SFmul. cbn [xorb].
  assert (Hlo : 2 ^ 104 <= Zpos mx * Zpos my).
  { change (2 ^ 104) with (2 ^ 52 * 2 ^ 52).
    apply Z.mul_le_mono_nonneg; lia. }
  assert (Hhi : Zpos mx * Zpos my < 2 ^ 106).
  { change (2 ^ 106) with (2 ^ 53 * 2 ^ 53).
    apply Z.mul_lt_mono_nonneg; lia. }
  rewrite <- Pos2Z.inj_mul in *.
  destruct (Z_lt_le_dec (Zpos (mx * my)) (2 ^ 105)) as [Hlt | Hge].
  - destruct (binary_round_aux_pos (mx * my) (ex + ey) 105)
      as (m & e & Hr & Hm & Hc); try lia.
    exists m, e. split; [exact Hr|]. split; [exact Hm|]. left.
    split; [exact Hlt|].
    replace (ex + ey + 52) with (ex + ey + (105 - 53)) by lia.
    replace (ex + ey + 53) with (ex + ey + (105 - 53) + 1) by lia.
    exact Hc.
  - destruct (binary_round_aux_pos (mx * my) (ex + ey) 106)
      as (m & e & Hr & Hm & Hc); try lia.
    exists m, e. split; [exact Hr|]. split; [exact Hm|]. right.
    split; [exact Hge|].
    replace (ex + ey + 53) with (ex + ey + (106 - 53)) by lia.
    replace (ex + ey + 54) with (ex + ey + (106 - 53) + 1) by lia.
    exact Hc.
Qed.


Lemma delay_in_range_inv (d : float) :
  delay_in_range d ->
  exists (m : positive) (e : Z),
    Prim2SF d = S754_finite false m e /\
    2 ^ 52 <= Zpos m < 2 ^ 53 /\ -53 <= e /\
    (e < -47 \/ (e = -47 /\ Zpos m <= 8444249301319680)).
Proof.
  intros [Hlo Hhi]. unfold min_delay, max_delay in *.
  rewrite leb_spec in Hlo, Hhi.
  change (Prim2SF 0.5) with (S754_finite false 4503599627370496 (-53)) in Hlo.
  change (Prim2SF 60) with (S754_finite false 8444249301319680 (-47)) in Hhi.
  destruct (Prim2SF d) as [s | s | | s m e] eqn:Hd;
    try (destruct s; discriminate); try discriminate.
  destruct s; [discriminate|].
  apply SFleb_pos in Hlo. apply SFleb_pos in Hhi.
  exists m, e. split; [reflexivity|].
  split; [apply (valid_normal d false m e Hd); lia|]. lia.
Qed.

Lemma delay_in_range_intro (d : float) (m : positive) (e : Z) :
  Prim2SF d = S754_finite false m e ->
  (-53 < e \/ (e = -53 /\ 4503599627370496 <= Zpos m)) ->
  (e < -47 \/ (e = -47 /\ Zpos m <= 8444249301319680)) ->
  delay_in_range d.
Proof.
  intros Hd Hlo Hhi. unfold delay_in_range, min_delay, max_delay.
  split; rewrite leb_spec, Hd.
  - change (Prim2SF 0.5) with (S754_finite false 4503599627370496 (-53)).
    apply SFleb_pos. lia.
  - change (Prim2SF 60) with (S754_finite false 8444249301319680 (-47)).
    apply SFleb_pos. lia.
Qed.

Ltac pow_consts :=
  change (2 ^ 52) with 4503599627370496 in *;
  change (2 ^ 53 - 1) with 9007199254740991 in *;
  change (2 ^ 53) with 9007199254740992 in *;
  change (2 ^ 105) with 40564819207303340847894502572032 in *.

Lemma delay_success (d : float) :
  delay_in_range d -> delay_in_range (Py.max 0.5 (d * 0.9)).
Proof.
  intros Hd. unfold Py.max.
  destruct (0.5 <? d * 0.9)%float eqn:Hcmp; [|split; reflexivity].
  destruct (delay_in_range_inv d Hd) as (m & e & Hsf & Hm & Hlo & Hhi).
  destruct (mul_normal d 0.9 m 8106479329266893 e (-53) Hsf eq_refl Hm)
    as (m' & e' & Hsf' & Hm' & Hc); [cbn; lia | lia |].
  rewrite ltb_spec, Hsf' in Hcmp.
  change (Prim2SF 0.5) with (S754_finite false 4503599627370496 (-53)) in Hcmp.
  apply SFltb_pos in Hcmp.
  apply (delay_in_range_intro _ m' e' Hsf'); [lia|].
  pow_consts. clear Hsf Hsf' Hd Hcmp.
  Z.to_euclidean_division_equations. lia.
Qed.


Lemma delay_rate_limited (d : float) :
  delay_in_range d -> delay_in_range (Py.min 60 (d * backoff_multiplier)).
Proof.
  intros Hd. unfold Py.min, backoff_multiplier.
  destruct (d * 2 <? 60)%float eqn:Hcmp; [|split; reflexivity].
  destruct (delay_in_range_inv d Hd) as (m & e & Hsf & Hm & Hlo & Hhi).
  destruct (mul_normal d 2 m 4503599627370496 e (-51) Hsf eq_refl Hm)
    as (m' & e' & Hsf' & Hm' & Hc); [cbn; lia | lia |].
  rewrite ltb_spec, Hsf' in Hcmp.
  change (Prim2SF 60) with (S754_finite false 8444249301319680 (-47)) in Hcmp.
  apply SFltb_pos in Hcmp.
  apply (delay_in_range_intro _ m' e' Hsf'); [|lia].
  pow_consts. clear Hsf Hsf' Hd Hcmp.
  Z.to_euclidean_division_equations. lia.
Qed.

Lemma delay_other_failure (d : float) :
  delay_in_range d -> delay_in_range (Py.min 30 (d * 1.5)).
Proof.
  intros Hd. unfold Py.min.
  destruct (d * 1.5 <? 30)%float eqn:Hcmp; [|split; reflexivity].
  destruct (delay_in_range_inv d Hd) as (m & e & Hsf & Hm & Hlo & Hhi).
  destruct (mul_normal d 1.5 m 6755399441055744 e (-52) Hsf eq_refl Hm)
    as (m' & e' & Hsf' & Hm' & Hc); [cbn; lia | lia |].
  rewrite ltb_spec, Hsf' in Hcmp.
  change (Prim2SF 30) with (S754_finite false 8444249301319680 (-48)) in Hcmp.
  apply SFltb_pos in Hcmp.
  apply (delay_in_range_intro _ m' e' Hsf'); [|lia].
  pow_consts. clear Hsf Hsf' Hd Hcmp.
  Z.to_euclidean_division_equations. lia.
Qed.

End Binary64.
Lemma all_below_spec (f : Z -> bool) (k : nat) :
  all_below f k = true ->
  forall n, 0 <= n < Z.of_nat k -> f n = true.
Proof.
  induction k as [|k IH]; intros H n Hn; [lia|].
  cbn [all_below] in H. apply andb_prop in H. destruct H as [Hk Hr].
  destruct (Z.eq_dec n (Z.of_nat k)) as [->|Hne]; [exact Hk|].
  apply IH; [exact Hr | lia].
Qed.

Lemma scaling_exact (n : Z) :
  0 <= n <= 5000 ->
  Py.int (Py.float_of_int n * 1.1) = n * 11 / 10 /\
  Py.int (Py.float_of_int n * 0.5) = n / 2.
Proof.
  intros Hn.
  assert (H : all_below scaling_exact_at (Z.to_nat 5001) = true)
    by (vm_compute; reflexivity).
  assert (Hs : scaling_exact_at n = true).
  { apply (all_below_spec _ _ H). rewrite Z2Nat.id; lia. }
  unfold scaling_exact_at in Hs. apply andb_prop in Hs.
  destruct Hs as [H1 H2]. apply Z.eqb_eq in H1, H2. split; assumption.
Qed.

(** ** The rate controller *)

Lemma floored_at_max (lo x : float) : floored_at lo x = Py.max lo x.
Proof. reflexivity. Qed.

Lemma capped_at_min (hi x : float) : capped_at hi x = Py.min hi x.
Proof. reflexivity. Qed.

(** C2. For every rate state whose batch size lies within the bounds of
    the data model (at most [max_batch], not negative), [_adaptive_delay]
    is the AIMD transition table of the specification: a success without
    a rate-limit signal counts up, zeroes the failure counter and, at 3,
    scales the delay by 0.9 floored at 0.5 and the batch size by 1.1
    capped at 5000 and resets the counter; a rate-limited outcome counts
    a failure, zeroes the success counter, scales the delay by the
    backoff multiplier 2.0 capped at 60.0 and halves the batch size
    floored at 200; any other failure counts a failure, zeroes the
    success counter and scales the delay by 1.5 capped at 30.0, a ceiling
    strictly below the rate-limit ceiling. *)
Theorem adaptive_delay_is_aimd_table
    (success was_rate_limited : bool) (s : RateState) :
  0 <= current_batch_size s <= max_batch ->
  _adaptive_delay success was_rate_limited s
    = aimd_table (outcome_of success was_rate_limited) s
  /\ backoff_multiplier = 2%float
  /\ (other_failure_ceiling <? max_delay)%float = true.
Proof.
  intros Hb. unfold max_batch in Hb.
  destruct (scaling_exact (current_batch_size s) Hb) as [E11 E05].
  split; [|split; reflexivity].
  unfold _adaptive_delay, aimd_table, outcome_of.
  destruct success, was_rate_limited; cbn [andb negb];
    rewrite ?E11, ?E05; reflexivity.
Qed.

Lemma adaptive_delay_is_aimd_table_witness :
  0 <= current_batch_size init_rate <= max_batch /\
  _adaptive_delay true false init_rate
    = aimd_table (outcome_of true false) init_rate.
Proof.
  split; [unfold max_batch, init_rate, base_batch_size; simpl; lia|].
  apply (adaptive_delay_is_aimd_table true false init_rate).
  unfold max_batch, init_rate, base_batch_size; simpl; lia.
Defined.

Lemma adaptive_delay_bounded (success was_rate_limited : bool)
    (s : RateState) :
  rate_bounded s -> rate_bounded (_adaptive_delay success was_rate_limited s).
Proof.
  intros [Hb Hd]. unfold batch_in_range, min_batch, max_batch in Hb.
  destruct (scaling_exact (current_batch_size s)) as [E11 E05]; [lia|].
  unfold _adaptive_delay.
  destruct (success && negb was_rate_limited);
    [destruct (3 <=? success_count s + 1) | destruct was_rate_limited];
    (split; [unfold batch_in_range, min_batch, max_batch | ]);
    cbn [current_batch_size current_delay];
    rewrite ?E11, ?E05;
    try exact Hd; try exact Hb;
    try (apply Binary64.delay_success; exact Hd);
    try (apply Binary64.delay_rate_limited; exact Hd);
    try (apply Binary64.delay_other_failure; exact Hd).
  - pose proof (Z.div_le_lower_bound (current_batch_size s * 11) 10 200).
    lia.
  - pose proof (Z.div_le_upper_bound (current_batch_size s) 2 5000).
    lia.
Qed.

(** C3. From the initial rate state (batch size 1000, delay 0.6), every
    sequence of controller transitions, whatever the mix of success,
    rate-limited and other-failure outcomes, ends in a state whose batch
    size lies in [[200, 5000]] and whose delay lies in [[0.5, 60.0]]. *)
Theorem rate_bounds_invariant (calls : list (bool * bool)) :
  let s := adapt_all calls init_rate in
  200 <= current_batch_size s <= 5000 /\
  (0.5 <=? current_delay s)%float = true /\
  (current_delay s <=? 60)%float = true.
Proof.
  cbn zeta.
  assert (H : rate_bounded (adapt_all calls init_rate)).
  { unfold adapt_all.
    assert (H0 : rate_bounded init_rate).
    { split; [unfold batch_in_range, min_batch, max_batch, init_rate,
                base_batch_size; simpl; lia|].
      split; reflexivity. }
    revert H0. generalize init_rate.
    induction calls as [|[sc rl] calls IH]; intros s Hs; [exact Hs|].
    cbn [fold_left fst snd]. apply IH.
    apply adaptive_delay_bounded. exact Hs. }
  destruct H as [Hb [Hlo Hhi]]. split; [exact Hb|]. split; assumption.
Qed.

(** C9. For every rate state, the transition for a failure that is not
    rate-limited leaves the batch size as it was: only the delay and the
    two counters change on that branch. *)
Theorem other_failure_keeps_batch_size (s : RateState) :
  current_batch_size (_adaptive_delay false false s) = current_batch_size s
  /\ _adaptive_delay false false s
     = {| current_batch_size := current_batch_size s;
          current_delay := Py.min 30 (current_delay s * 1.5);
          success_count := 0;
          failure_count := failure_count s + 1 |}.
Proof. split; reflexivity. Qed.

(** C10. A reachable rate state has a failure transition that strictly
    decreases the delay: seven rate-limited outcomes from the initial
    state drive the delay to the rate-limit ceiling 60.0, and a failure
    that is not rate-limited then sets it to min(30.0, 60.0 * 1.5) =
    30.0; so the delay is not monotone across consecutive failures. *)
Theorem failure_can_decrease_delay :
  exists calls : list (bool * bool),
    Forall (fun c => fst c = false) calls /\
    let s := adapt_all calls init_rate in
    current_delay s = 60%float /\
    current_delay (_adaptive_delay false false s) = 30%float /\
    current_delay (_adaptive_delay false false s)
      = Py.min 30 (60 * 1.5) /\
    (current_delay (_adaptive_delay false false s) <? current_delay s)%float
      = true.
Proof.
  exists (repeat (false, true) 7). split.
  - repeat constructor.
  - cbn zeta. repeat split; reflexivity.
Qed.

(** ** Slices and pages of a list *)

Lemma chunks_concat {A} (p : nat) :
  (0 < p)%nat ->
  forall (k : nat) (l : list A),
    (length l <= k * p)%nat ->
    concat (map (fun i => firstn p (skipn (i * p) l)) (seq 0 k)) = l.
Proof.
  intros Hp. induction k as [|k IH]; intros l Hl.
  - destruct l; [reflexivity | cbn in Hl; lia].
  - cbn [seq map concat]. rewrite <- seq_shift, map_map.
    cbn [Nat.mul Nat.add skipn].
    transitivity (firstn p l ++ skipn p l); [|apply firstn_skipn].
    f_equal.
    transitivity (concat (map (fun i => firstn p (skipn (i * p) (skipn p l)))
                              (seq 0 k))).
    + f_equal. apply map_ext. intros i. rewrite skipn_skipn.
      f_equal. f_equal. lia.
    + apply IH. rewrite length_skipn. lia.
Qed.

Lemma slice_chunk {A} (l : list A) (eff : Z) (k : nat) :
  0 <= eff ->
  slice l (Z.of_nat k * eff) (Z.of_nat k * eff + eff)
  = firstn (Z.to_nat eff) (skipn (k * Z.to_nat eff) l).
Proof.
  intros He. unfold slice. f_equal.
  - f_equal. lia.
  - f_equal. rewrite Z2Nat.inj_mul by lia. rewrite Nat2Z.id. reflexivity.
Qed.

Lemma ceil_div_covers (n p : Z) :
  0 < p -> 0 <= n -> n <= (n + p - 1) / p * p.
Proof.
  intros Hp Hn.
  pose proof (Z.div_mod (n + p - 1) p ltac:(lia)) as Hd.
  pose proof (Z.mod_pos_bound (n + p - 1) p Hp) as Hm. lia.
Qed.

(** The batches of [range(0, len(data), eff)] cover the data once. *)
Lemma slices_cover {A} (data : list A) (eff : Z) :
  0 < eff ->
  concat (map (fun i => slice data i (i + eff))
              (py_range (Z.of_nat (length data)) eff)) = data.
Proof.
  intros He. unfold py_range.
  replace (0 <? eff) with true by (symmetry; apply Z.ltb_lt; exact He).
  destruct (0 <? Z.of_nat (length data)) eqn:Hlen.
  - rewrite map_map.
    rewrite (map_ext _ (fun k => firstn (Z.to_nat eff)
                                   (skipn (k * Z.to_nat eff) data))).
    + apply chunks_concat; [lia|].
      pose proof (ceil_div_covers (Z.of_nat (length data)) eff He
                    ltac:(lia)) as Hc.
      assert (0 <= (Z.of_nat (length data) + eff - 1) / eff)
        by (apply Z.div_pos; lia).
      apply Nat2Z.inj_le. rewrite Nat2Z.inj_mul, !Z2Nat.id by lia.
      exact Hc.
    + intros k. apply slice_chunk. lia.
  - apply Z.ltb_ge in Hlen. destruct data; [reflexivity | cbn in Hlen; lia].
Qed.

Lemma slice_length {A} (l : list A) (i j : Z) :
  0 <= i -> i <= j ->
  Z.of_nat (length (slice l i j))
  = Z.min (j - i) (Z.max 0 (Z.of_nat (length l) - i)).
Proof.
  intros Hi Hj. unfold slice. rewrite length_firstn, length_skipn. lia.
Qed.

Lemma firstn_plus {A} (a b : nat) (l : list A) :
  firstn (a + b) l = firstn a l ++ firstn b (skipn a l).
Proof.
  revert l. induction a as [|a IH]; intros l; [reflexivity|].
  destruct l as [|x l]; [cbn; destruct b; reflexivity|].
  cbn. f_equal. apply IH.
Qed.

(** The first [m] chunks of a list, end to end, are its first [m * p]
    elements. *)
Lemma chunks_prefix {A} (p m : nat) (l : list A) :
  concat (map (fun i => firstn p (skipn (i * p) l)) (seq 0 m))
  = firstn (m * p) l.
Proof.
  induction m as [|m IH]; [reflexivity|].
  rewrite seq_S, map_app, concat_app, IH. cbn [Nat.add map concat].
  rewrite app_nil_r. replace (S m * p)%nat with (m * p + p)%nat by lia.
  symmetry. apply firstn_plus.
Qed.

Lemma firstn_seq (m c s : nat) :
  (m <= c)%nat -> firstn m (seq s c) = seq s m.
Proof.
  revert c s. induction m as [|m IH]; intros c s Hm; [reflexivity|].
  destruct c as [|c]; [lia|]. cbn. f_equal. apply IH. lia.
Qed.

Lemma map_seq_prefix {A} (f : nat -> A) (c : nat) (pre : list A) (i : A)
    (later : list A) :
  map f (seq 0 c) = pre ++ i :: later ->
  pre = map f (seq 0 (length pre)) /\ (length pre < c)%nat.
Proof.
  intros H.
  assert (Hlen : c = (length pre + S (length later))%nat).
  { apply (f_equal (@length A)) in H.
    rewrite length_map, length_seq, length_app in H. exact H. }
  split; [|lia].
  assert (Hpre : pre = firstn (length pre) (map f (seq 0 c))).
  { rewrite H, firstn_app, firstn_all, Nat.sub_diag. cbn [firstn].
    rewrite app_nil_r. reflexivity. }
  rewrite firstn_map, firstn_seq in Hpre by lia. exact Hpre.
Qed.

(** The batches before any index of [range(0, len(data), eff)], end to
    end, are a proper prefix of the data. *)
Lemma slices_prefix {A} (data : list A) (eff : Z) (pre : list Z) (i : Z)
    (later : list Z) :
  0 < eff ->
  py_range (Z.of_nat (length data)) eff = pre ++ i :: later ->
  concat (map (fun i => slice data i (i + eff)) pre)
  = firstn (length pre * Z.to_nat eff) data /\
  (length pre * Z.to_nat eff < length data)%nat.
Proof.
  intros He. unfold py_range.
  replace (0 <? eff) with true by (symmetry; apply Z.ltb_lt; exact He).
  destruct (0 <? Z.of_nat (length data)) eqn:Hlen.
  - intros H. apply map_seq_prefix in H. destruct H as [Hpre Hm].
    split.
    + rewrite Hpre at 1. rewrite map_map.
      rewrite (map_ext _ (fun k => firstn (Z.to_nat eff)
                                     (skipn (k * Z.to_nat eff) data))).
      * apply chunks_prefix.
      * intros k. apply slice_chunk. lia.
    + apply Z.ltb_lt in Hlen.
      assert (Hc : 0 <= (Z.of_nat (length data) + eff - 1) / eff)
        by (apply Z.div_pos; lia).
      assert (Hm' : Z.of_nat (length pre) + 1
                    <= (Z.of_nat (length data) + eff - 1) / eff) by lia.
      pose proof (Z.mul_div_le (Z.of_nat (length data) + eff - 1) eff He)
        as Hd.
      apply Nat2Z.inj_lt. rewrite Nat2Z.inj_mul, Z2Nat.id by lia. nia.
  - cbn. intros H. destruct pre; discriminate.
Qed.

Lemma filter_all {A} (f : A -> bool) (l : list A) :
  (forall x, In x l -> f x = true) -> filter f l = l.
Proof.
  induction l as [|x l IH]; intros H; [reflexivity|].
  cbn [filter]. rewrite (H x (or_introl eq_refl)). f_equal.
  apply IH. intros y Hy. apply H. right. exact Hy.
Qed.

(** All the indices of [range(0, n, eff)] but the last have a batch
    after theirs. *)
Lemma py_range_inner (n eff : Z) :
  0 < eff -> 0 <= n ->
  length (filter (fun i => i + eff <? n) (py_range n eff))
  = (length (py_range n eff) - 1)%nat.
Proof.
  intros He Hn. unfold py_range.
  replace (0 <? eff) with true by (symmetry; apply Z.ltb_lt; exact He).
  destruct (0 <? n) eqn:Hlen; [|reflexivity].
  apply Z.ltb_lt in Hlen.
  assert (Hc : 1 <= (n + eff - 1) / eff).
  { apply Z.div_le_lower_bound; lia. }
  pose proof (ceil_div_covers n eff He Hn) as Hcov.
  pose proof (Z.mul_div_le (n + eff - 1) eff He) as Hd.
  set (c := (n + eff - 1) / eff) in *.
  destruct (Z.to_nat c) as [|m] eqn:Hm; [lia|].
  rewrite seq_S, map_app, filter_app.
  cbn [Nat.add map filter].
  replace (Z.of_nat m * eff + eff <? n) with false
    by (symmetry; apply Z.ltb_ge; nia).
  rewrite app_nil_r, filter_all.
  - rewrite length_app. cbn [length]. lia.
  - intros i Hi. apply in_map_iff in Hi. destruct Hi as (k & <- & Hk).
    apply in_seq in Hk. apply Z.ltb_lt. nia.
Qed.

Lemma init_rate_bounded : rate_bounded init_rate.
Proof.
  split; [unfold batch_in_range, min_batch, max_batch, init_rate,
            base_batch_size; simpl; lia|].
  split; reflexivity.
Qed.
(** ** The batch dispatcher and the orchestrator *)

Section EngineFacts.

Variables Row DataPoint : Type.
Variable to_point : Row -> DataPoint.
Variable server : nat -> Response.
Variable table : list Row.

Local Abbreviation Trace := (list (Event Row DataPoint)).

Lemma posted_app (t1 t2 : Trace) :
  posted (t1 ++ t2) = posted t1 ++ posted t2.
Proof. apply flat_map_app. Qed.

Lemma adapts_app (t1 t2 : Trace) :
  adapts (t1 ++ t2) = adapts t1 ++ adapts t2.
Proof. apply flat_map_app. Qed.

Lemma adapt_all_app (c1 c2 : list (bool * bool)) (s : RateState) :
  adapt_all (c1 ++ c2) s = adapt_all c2 (adapt_all c1 s).
Proof. apply fold_left_app. Qed.

(** One attempt: one POST, the controller calls its response leads to,
    and [Break] exactly on status 200. *)
Lemma attempt_body_spec (batch : list DataPoint) (k : nat) (w : World) :
  forall a w' (t : Trace), attempt_body server batch k w = (a, w', t) ->
    posts w' = S (posts w) /\
    posted t = [batch] /\
    adapts t = controller_calls (server (posts w)) /\
    rate w' = adapt_all (adapts t) (rate w) /\
    Forall dispatch_event t /\
    (a = Break <-> server (posts w) = Status 200) /\
    (a = ReturnFalse -> is_last k = true).
Proof.
  intros a w' t. unfold attempt_body, bind, post, adapt, sleep, get_delay, ret.
  unfold controller_calls.
  destruct (server (posts w)) as [code | |] eqn:Hr.
  - destruct (code =? 200) eqn:E200; [|destruct (code =? 429) eqn:E429;
      [|destruct (is_last k) eqn:El]];
      cbn; intros H; inversion H; subst; clear H; cbn;
      repeat split; try discriminate; try congruence;
      try (repeat constructor; discriminate);
      try (intros _; apply Z.eqb_eq in E200; congruence);
      try (intros Hs; inversion Hs; subst; discriminate).
  - destruct (is_last k) eqn:El; cbn; intros H; inversion H; subst; cbn;
      repeat split; try discriminate; try congruence;
      try (repeat constructor; discriminate).
  - destruct (is_last k) eqn:El; cbn; intros H; inversion H; subst; cbn;
      repeat split; try discriminate; try congruence;
      try (repeat constructor; discriminate).
Qed.

Lemma responses_from_succ (p n : nat) :
  responses_from server p (S n) = server p :: responses_from server (S p) n.
Proof. reflexivity. Qed.

Lemma responses_from_last (p n : nat) :
  responses_from server p (S n) = responses_from server p n ++ [server (p + n)].
Proof.
  unfold responses_from. rewrite seq_S, map_app. reflexivity.
Qed.

(** The retry loop over any list of attempt numbers. *)
Lemma retry_loop_spec (batch : list DataPoint) (attempts : list nat) :
  forall w ok w' (t : Trace),
    retry_loop server batch attempts w = (ok, w', t) ->
    exists n : nat,
      posts w' = (posts w + n)%nat /\ (n <= length attempts)%nat /\
      posted t = repeat batch n /\
      adapts t = flat_map controller_calls (responses_from server (posts w) n) /\
      rate w' = adapt_all (adapts t) (rate w) /\
      Forall dispatch_event t /\
      (if ok then
         exists m, n = S m /\ server (posts w + m) = Status 200 /\
                   Forall (fun r => r <> Status 200)
                          (responses_from server (posts w) m)
       else Forall (fun r => r <> Status 200) (responses_from server (posts w) n)).
Proof.
  induction attempts as [|k later IH]; intros w ok w' t H.
  - cbn in H. inversion H; subst. exists 0%nat. cbn.
    rewrite Nat.add_0_r. repeat split; try constructor.
  - cbn [retry_loop] in H. unfold bind in H.
    destruct (attempt_body server batch k w) as [[a w1] t1] eqn:Ha.
    apply attempt_body_spec in Ha.
    destruct Ha as (Hp & Hpost & Had & Hrate & Hev & Hbrk & _).
    destruct a.
    + cbn in H. inversion H; subst. clear H. exists 1%nat.
      rewrite app_nil_r. rewrite responses_from_succ. cbn [flat_map].
      rewrite app_nil_r.
      repeat split; try assumption; try (cbn; lia).
      exists 0%nat. rewrite Nat.add_0_r. split; [reflexivity|].
      split; [apply Hbrk; reflexivity | constructor].
    + destruct (retry_loop server batch later w1) as [[ok2 w2] t2] eqn:Hl.
      inversion H; subst. clear H.
      destruct (IH _ _ _ _ Hl) as (n & Hp2 & Hn & Hpost2 & Had2 & Hrate2 & Hev2 & Hok).
      assert (Hne : server (posts w) <> Status 200).
      { intros Hs. apply Hbrk in Hs. discriminate. }
      exists (S n). rewrite Hp in Hp2, Had2, Hok.
      split; [lia|]. split; [cbn; lia|].
      split; [rewrite posted_app, Hpost, Hpost2; reflexivity|].
      split.
      { rewrite adapts_app, Had, Had2, responses_from_succ.
        reflexivity. }
      split; [rewrite adapts_app, adapt_all_app, <- Hrate; exact Hrate2|].
      split; [apply Forall_app; split; assumption|].
      destruct ok.
      * destruct Hok as (m & -> & Hs & Hall). exists (S m).
        split; [reflexivity|].
        replace (posts w + S m)%nat with (S (posts w) + m)%nat by lia.
        split; [exact Hs|]. rewrite responses_from_succ.
        constructor; assumption.
      * rewrite responses_from_succ. constructor; assumption.
    + cbn in H. inversion H; subst. clear H. exists 1%nat.
      rewrite app_nil_r. rewrite responses_from_succ. cbn [flat_map].
      rewrite app_nil_r.
      repeat split; try assumption; try (cbn; lia).
      constructor; [|constructor].
      intros Hs. apply Hbrk in Hs. discriminate.
Qed.

(** A batch is given up only after [max_retries] POSTs. *)
Lemma retry_loop_exhausts (batch : list DataPoint) (k : nat) :
  forall a w w' (t : Trace), (a + k = max_retries)%nat ->
    retry_loop server batch (seq a k) w = (false, w', t) ->
    posts w' = (posts w + k)%nat.
Proof.
  induction k as [|k IH]; intros a w w' t Hak H.
  - cbn in H. inversion H; subst. lia.
  - cbn [seq retry_loop] in H. unfold bind in H.
    destruct (attempt_body server batch a w) as [[r w1] t1] eqn:Ha.
    apply attempt_body_spec in Ha.
    destruct Ha as (Hp & _ & _ & _ & _ & _ & Hlast).
    destruct r.
    + cbn in H. inversion H.
    + destruct (retry_loop server batch (seq (S a) k) w1) as [[ok2 w2] t2] eqn:Hl.
      inversion H; subst. apply IH in Hl; [lia | lia].
    + cbn in H. inversion H; subst.
      specialize (Hlast eq_refl). unfold is_last, max_retries in *.
      apply negb_true_iff in Hlast. apply Nat.ltb_ge in Hlast. lia.
Qed.

Lemma controller_calls_failure (r : Response) :
  r <> Status 200 -> Forall (fun c => fst c = false) (controller_calls r).
Proof.
  intros Hr. destruct r as [code | |]; cbn; try constructor.
  destruct (code =? 200) eqn:E.
  - apply Z.eqb_eq in E. congruence.
  - destruct (code =? 429); repeat constructor.
Qed.

Lemma controller_calls_failures (rs : list Response) :
  Forall (fun r => r <> Status 200) rs ->
  Forall (fun c => fst c = false) (flat_map controller_calls rs).
Proof.
  induction 1 as [|r rs Hr _ IH]; cbn; [constructor|].
  apply Forall_app. split; [apply controller_calls_failure; exact Hr | exact IH].
Qed.

(** C1 (as amended). While a batch is sent, the rate controller is
    called once for every attempt that comes back with an HTTP status
    (a success update for 200, a rate-limited update for 429, an
    other-failure update for any other status) and not for an attempt
    that times out or raises; the rate state after the batch is the
    state before it with these updates applied in order.  A batch that
    succeeds in the end therefore has exactly one success update, its
    last, with one failure update before it for each earlier attempt
    that came back with a status. *)
Theorem controller_called_per_response (batch : list DataPoint) (w : World) :
  let '(ok, w', t) := @send_batch Row DataPoint server batch w in
  let n := (posts w' - posts w)%nat in
  posted t = repeat batch n /\
  adapts t = flat_map controller_calls (responses_from server (posts w) n) /\
  rate w' = adapt_all (adapts t) (rate w) /\
  (ok = true ->
   exists m, n = S m /\
     adapts t = flat_map controller_calls (responses_from server (posts w) m)
                ++ [(true, false)] /\
     Forall (fun c => fst c = false)
       (flat_map controller_calls (responses_from server (posts w) m))) /\
  (ok = false -> Forall (fun c => fst c = false) (adapts t)).
Proof.
  destruct (@send_batch Row DataPoint server batch w) as [[ok w'] t] eqn:Hs.
  unfold send_batch in Hs. apply retry_loop_spec in Hs.
  destruct Hs as (n & Hp & _ & Hpost & Had & Hrate & _ & Hok).
  replace (posts w' - posts w)%nat with n by lia. cbn zeta.
  split; [exact Hpost|]. split; [exact Had|]. split; [exact Hrate|].
  split; intros ->.
  - destruct Hok as (m & -> & H200 & Hall). exists m.
    split; [reflexivity|]. split.
    + rewrite Had, responses_from_last, flat_map_app. cbn [flat_map].
      rewrite H200. reflexivity.
    + apply controller_calls_failures. exact Hall.
  - rewrite Had. apply controller_calls_failures. exact Hok.
Qed.

Lemma send_batch_ok (batch : list DataPoint) (w : World) :
  server (posts w) = Status 200 ->
  @send_batch Row DataPoint server batch w
  = (true,
     {| rate := _adaptive_delay true false (rate w); posts := S (posts w) |},
     [EvPost batch; EvAdapt true false]).
Proof.
  intros H. unfold send_batch. cbn [seq max_retries retry_loop].
  unfold bind at 1. unfold attempt_body, bind, post. rewrite H. reflexivity.
Qed.

Lemma send_batch_429_200 (batch : list DataPoint) (w : World) :
  server (posts w) = Status 429 -> server (S (posts w)) = Status 200 ->
  @send_batch Row DataPoint server batch w
  = (true,
     {| rate := _adaptive_delay true false
                  (_adaptive_delay false true (rate w));
        posts := S (S (posts w)) |},
     [EvPost batch; EvAdapt false true;
      EvSleep RetryBackoff
        (current_delay (rate w) * Py.pow backoff_multiplier 0);
      EvPost batch; EvAdapt true false]).
Proof.
  intros H1 H2. unfold send_batch. cbn [seq max_retries retry_loop].
  unfold bind at 1. unfold attempt_body at 1. unfold bind, post at 1.
  rewrite H1. cbn -[_adaptive_delay Py.pow attempt_body].
  unfold attempt_body, bind, post. cbn [posts]. rewrite H2. reflexivity.
Qed.

(** C4. If the first attempt of a batch comes back with 429 and the
    second with 200, the batch counts as sent: the loop over the batches
    goes on with the next one and, when there is none, returns success;
    the rate state has then taken exactly one rate-limited shrink (delay
    times the backoff multiplier capped at 60.0, batch size halved and
    floored at 200) from the first attempt, followed by the success
    update of the second. *)
Theorem rate_limited_then_ok (batch : list DataPoint) (w : World) :
  server (posts w) = Status 429 -> server (S (posts w)) = Status 200 ->
  let shrunk := _adaptive_delay false true (rate w) in
  let w' := {| rate := _adaptive_delay true false shrunk;
               posts := S (S (posts w)) |} in
  exists t : Trace,
    send_batch server batch w = (true, w', t) /\
    posted t = [batch; batch] /\
    adapts t = [(false, true); (true, false)] /\
    current_delay shrunk
      = Py.min 60 (current_delay (rate w) * backoff_multiplier) /\
    current_batch_size shrunk
      = Z.max 200
          (Py.int (Py.float_of_int (current_batch_size (rate w)) * 0.5)) /\
    (0 <= current_batch_size (rate w) <= 5000 ->
     current_batch_size shrunk
       = Z.max 200 (current_batch_size (rate w) / 2)) /\
    (forall data eff i later,
        batch = slice data i (i + eff) ->
        batch_loop server data eff (i :: later) w
        = let '(ok2, w2, t2) :=
            bind (pace_batches data eff i)
                 (fun _ => batch_loop server data eff later) w' in
          (ok2, w2, t ++ t2)) /\
    (forall data eff i,
        batch = slice data i (i + eff) ->
        fst (fst (@batch_loop Row DataPoint server data eff [i] w))
        = true).
Proof.
  intros H1 H2 shrunk w'.
  pose proof (send_batch_429_200 batch w H1 H2) as Hs.
  eexists. split; [exact Hs|].
  split; [reflexivity|]. split; [reflexivity|].
  split; [reflexivity|]. split; [reflexivity|]. split.
  - intros Hb. unfold shrunk. cbn [_adaptive_delay andb negb current_batch_size].
    destruct (scaling_exact _ Hb) as [_ ->]. reflexivity.
  - split.
    + intros data eff i later ->.
      cbn [batch_loop]. unfold bind at 1. rewrite Hs. reflexivity.
    + intros data eff i ->.
      cbn [batch_loop]. unfold bind at 1. rewrite Hs.
      unfold bind, pace_batches, ret, get_delay, sleep.
      destruct (i + eff <? Z.of_nat (length data)); reflexivity.
Qed.

Lemma batch_loop_app (data : list DataPoint) (eff : Z) (pre rest : list Z) :
  forall w,
    @batch_loop Row DataPoint server data eff (pre ++ rest) w
    = let '(ok, w1, t1) := batch_loop server data eff pre w in
      if ok then
        let '(ok2, w2, t2) := batch_loop server data eff rest w1 in
        (ok2, w2, t1 ++ t2)
      else (false, w1, t1).
Proof.
  induction pre as [|i pre IH]; intros w.
  - cbn. destruct (batch_loop server data eff rest w) as [[ok2 w2] t2].
    reflexivity.
  - cbn [app batch_loop]. unfold bind.
    destruct (send_batch server _ w) as [[ok w1] t1].
    destruct ok; [|unfold ret; rewrite app_nil_r; reflexivity].
    destruct (pace_batches data eff i w1) as [[u w2] t2].
    rewrite IH.
    destruct (batch_loop server data eff pre w2) as [[ok3 w3] t3].
    destruct ok3.
    + destruct (batch_loop server data eff rest w3) as [[ok4 w4] t4].
      rewrite !app_assoc. reflexivity.
    + rewrite !app_assoc. reflexivity.
Qed.

Lemma pace_batches_spec (data : list DataPoint) (eff i : Z) (w : World) :
  exists t : Trace,
    pace_batches data eff i w = (tt, w, t) /\
    posted t = [] /\ adapts t = [] /\ Forall dispatch_event t.
Proof.
  unfold pace_batches, bind, get_delay, sleep, ret.
  destruct (i + eff <? Z.of_nat (length data)); eexists;
    (split; [reflexivity|]); repeat split; repeat constructor; discriminate.
Qed.

(** The batches of a call when every POST is answered with 200. *)
Lemma batch_loop_all_ok (data : list DataPoint) (eff : Z) (idx : list Z) :
  (forall n, server n = Status 200) ->
  forall w, exists t : Trace,
    batch_loop server data eff idx w
    = (true,
       {| rate := adapt_all (repeat (true, false) (length idx)) (rate w);
          posts := (posts w + length idx)%nat |}, t) /\
    posted t = map (fun i => slice data i (i + eff)) idx /\
    adapts t = repeat (true, false) (length idx) /\
    Forall dispatch_event t.
Proof.
  intros Hall. induction idx as [|i idx IH]; intros w.
  - exists []. cbn. rewrite Nat.add_0_r. destruct w. repeat split; constructor.
  - cbn [batch_loop]. unfold bind at 1.
    rewrite send_batch_ok by apply Hall. unfold bind at 1.
    destruct (pace_batches_spec data eff i
      {| rate := _adaptive_delay true false (rate w); posts := S (posts w) |})
      as (tp & -> & Hp1 & Hp2 & Hp3).
    destruct (IH {| rate := _adaptive_delay true false (rate w);
                    posts := S (posts w) |}) as (t & -> & Ht1 & Ht2 & Ht3).
    eexists. split.
    + cbn [rate posts length repeat]. f_equal. f_equal.
      f_equal. lia.
    + rewrite !posted_app, !adapts_app, Hp1, Hp2, Ht1, Ht2.
      repeat split; try reflexivity.
      apply Forall_app; split; [repeat constructor|].
      apply Forall_app; split; assumption.
Qed.


(** A call whose every POST is answered with 200. *)
Lemma bulk_insert_all_ok (data : list DataPoint) (batch_size : option Z)
    (w : World) :
  (forall n, server n = Status 200) ->
  data <> [] ->
  py_or batch_size (current_batch_size (rate w)) <> 0 ->
  let eff := py_or batch_size (current_batch_size (rate w)) in
  let idx := py_range (Z.of_nat (length data)) eff in
  exists t : Trace,
    bulk_insert server data batch_size w
    = (true,
       {| rate := adapt_all (repeat (true, false) (length idx)) (rate w);
          posts := (posts w + length idx)%nat |}, t) /\
    posted t = map (fun i => slice data i (i + eff)) idx /\
    adapts t = repeat (true, false) (length idx) /\
    Forall dispatch_event t.
Proof.
  intros Hall Hd He eff idx.
  destruct data as [|x data']; [congruence|].
  unfold bulk_insert, bind, get_batch_size. fold eff.
  replace (eff =? 0) with false by (symmetry; apply Z.eqb_neq; exact He).
  fold idx.
  destruct (batch_loop_all_ok (x :: data') eff idx Hall w)
    as (t & Ht & Hp & Ha & Hf).
  exists t. rewrite Ht. cbn [app]. repeat split; assumption.
Qed.

(** C5. For 3,500 data points, batch size 1000 and every attempt
    answered with 200, the call sends exactly 4 batches, of 1000, 1000,
    1000 and 500 points in this order, cut at fixed multiples of 1000
    and together the input; from the initial rate state the batch size
    has then grown exactly once, 1000 to int(1000 * 1.1) = 1100, at the
    third success in a row. *)
Theorem run_3500_in_four_batches (data : list DataPoint)
    (batch_size : option Z) (w : World) :
  Z.of_nat (length data) = 3500 ->
  rate w = init_rate ->
  batch_size = None \/ batch_size = Some 1000 ->
  (forall n, server n = Status 200) ->
  let '(ok, w', t) := @bulk_insert Row DataPoint server data batch_size w in
  ok = true /\
  posted t = [slice data 0 1000; slice data 1000 2000;
              slice data 2000 3000; slice data 3000 4000] /\
  map (fun b => Z.of_nat (length b)) (posted t) = [1000; 1000; 1000; 500] /\
  concat (posted t) = data /\
  adapts t = [(true, false); (true, false); (true, false); (true, false)] /\
  rate w' = adapt_all (adapts t) init_rate /\
  current_batch_size (rate w') = 1100 /\
  map (fun k => current_batch_size
                  (adapt_all (repeat (true, false) k) init_rate))
      [0; 1; 2; 3; 4]%nat
  = [1000; 1000; 1000; Py.int (Py.float_of_int 1000 * 1.1); 1100].
Proof.
  intros Hlen Hrate Hbs Hall.
  assert (Heff : py_or batch_size (current_batch_size (rate w)) = 1000).
  { rewrite Hrate. destruct Hbs as [-> | ->]; reflexivity. }
  assert (Hd : data <> []).
  { intros ->. cbn in Hlen. lia. }
  destruct (bulk_insert_all_ok data batch_size w Hall Hd) as (t & Ht & Hp & Ha & _).
  { rewrite Heff. lia. }
  rewrite Heff, Hlen in Ht, Hp, Ha.
  change (py_range 3500 1000) with [0; 1000; 2000; 3000] in Ht, Hp, Ha.
  rewrite Ht. cbn [length repeat map] in *. cbn [rate].
  split; [reflexivity|]. split; [exact Hp|]. split.
  - rewrite Hp. cbn [map]. rewrite !slice_length by lia. rewrite Hlen.
    reflexivity.
  - split.
    + rewrite Hp.
      pose proof (slices_cover data 1000 ltac:(lia)) as Hc.
      rewrite Hlen in Hc.
      change (py_range 3500 1000) with [0; 1000; 2000; 3000] in Hc.
      exact Hc.
    + rewrite Ha, Hrate. repeat split; reflexivity.
Qed.

Lemma responses_from_nth (p n m : nat) (P : Response -> Prop) :
  Forall P (responses_from server p n) -> (m < n)%nat -> P (server (p + m)).
Proof.
  intros H Hm. rewrite Forall_forall in H. apply H.
  unfold responses_from. apply in_map. apply in_seq. lia.
Qed.

(** A batch whose [max_retries] attempts all fail is given up after
    exactly that many POSTs. *)
Lemma send_batch_exhausted (batch : list DataPoint) (w : World) :
  Forall (fun r => r <> Status 200)
         (responses_from server (posts w) max_retries) ->
  exists w' (t : Trace),
    send_batch server batch w = (false, w', t) /\
    posts w' = (posts w + max_retries)%nat /\
    posted t = repeat batch max_retries /\
    rate w' = adapt_all (adapts t) (rate w) /\
    Forall dispatch_event t.
Proof.
  intros Hall.
  destruct (send_batch server batch w) as [[ok w'] t] eqn:Hs.
  pose proof Hs as Hs'. unfold send_batch in Hs'.
  apply retry_loop_spec in Hs'.
  destruct Hs' as (n & Hp & Hn & Hpost & _ & Hrate & Hev & Hok).
  rewrite length_seq in Hn.
  destruct ok.
  - destruct Hok as (m & -> & H200 & _). exfalso.
    apply (responses_from_nth _ _ m _ Hall); [lia | exact H200].
  - unfold send_batch in Hs.
    apply (retry_loop_exhausts batch max_retries 0%nat) in Hs; [|reflexivity].
    assert (n = max_retries) by lia. subst n.
    exists w', t. repeat split; assumption.
Qed.

Lemma batch_loop_events (data : list DataPoint) (eff : Z) (idx : list Z) :
  forall w ok w' (t : Trace),
    batch_loop server data eff idx w = (ok, w', t) ->
    Forall dispatch_event t.
Proof.
  induction idx as [|i idx IH]; intros w ok w' t H.
  - cbn in H. inversion H. constructor.
  - cbn [batch_loop] in H. unfold bind in H.
    destruct (send_batch server _ w) as [[ok1 w1] t1] eqn:Hs.
    unfold send_batch in Hs. apply retry_loop_spec in Hs.
    destruct Hs as (n & _ & _ & _ & _ & _ & Hev & _).
    destruct ok1.
    + destruct (pace_batches_spec data eff i w1) as (tp & Hp & _ & _ & Hevp).
      rewrite Hp in H.
      destruct (batch_loop server data eff idx w1) as [[ok2 w2] t2] eqn:Hl.
      inversion H; subst.
      apply Forall_app; split; [exact Hev|].
      apply Forall_app; split; [exact Hevp|]. eapply IH; exact Hl.
    + unfold ret in H. inversion H; subst. rewrite app_nil_r. exact Hev.
Qed.

Lemma bulk_insert_events (data : list DataPoint) (batch_size : option Z) :
  forall w ok w' (t : Trace),
    bulk_insert server data batch_size w = (ok, w', t) ->
    Forall dispatch_event t.
Proof.
  intros w ok w' t H. unfold bulk_insert in H.
  destruct data as [|x data']; [inversion H; constructor|].
  unfold bind, get_batch_size in H.
  destruct (py_or batch_size (current_batch_size (rate w)) =? 0).
  - inversion H. constructor.
  - destruct (batch_loop server _ _ _ w) as [[ok1 w1] t1] eqn:Hl.
    inversion H; subst. cbn [app]. eapply batch_loop_events; exact Hl.
Qed.

Lemma dispatch_no_page_events (t : Trace) :
  Forall dispatch_event t -> page_events t = [].
Proof.
  induction 1 as [|e t He _ IH]; [reflexivity|].
  unfold page_events in *. cbn [filter].
  destruct e as [b | s r | site secs | | l o rows]; cbn in *;
    try exact IH; try contradiction.
  destruct site; try exact IH. congruence.
Qed.

(** One pass through the [while True] loop. *)
Lemma page_loop_step (fuel : nat) (bs : Z) (dry : bool) (P offset : Z)
    (w : World) :
  (offset =? 0) && dry = false ->
  page_loop to_point server table (S fuel) bs dry P offset w
  = let pre := if offset =? 0 then [EvCount] else [] in
    let rows := page_of table P offset in
    match rows with
    | [] => (Some true, w, pre ++ [EvFetch P offset []])
    | _ :: _ =>
        let '(ok, w1, t1) :=
          bulk_insert server (map to_point rows) (Some bs) w in
        if ok then
          let '(r, w2, t2) :=
            page_loop to_point server table fuel bs dry P (offset + P) w1 in
          (r, w2,
           pre ++ EvFetch P offset rows :: t1 ++ EvSleep PagePacing 1 :: t2)
        else (Some false, w1, pre ++ EvFetch P offset rows :: t1)
    end.
Proof.
  intros Hdry. cbn [page_loop]. unfold bind, fetch, count_rows, ret, sleep.
  assert (Hstop : (if offset =? 0 then dry else false) = false).
  { destruct (offset =? 0); [exact Hdry | reflexivity]. }
  cbn zeta.
  destruct (offset =? 0); cbn [andb] in *; subst;
    destruct (page_of table P offset) as [|r rows] eqn:Hrows; cbn [app];
    try reflexivity;
    destruct (bulk_insert server _ (Some bs) w) as [[ok w1] t1];
    destruct ok; cbn [app]; try (rewrite app_nil_r; reflexivity);
    destruct (page_loop to_point server table fuel bs _ P (offset + P) w1)
      as [[r2 w2] t2]; reflexivity.
Qed.

Lemma page_of_nil (P offset : Z) :
  0 < P -> 0 <= offset ->
  (page_of table P offset = [] <-> Z.of_nat (length table) <= offset).
Proof.
  intros HP Ho. unfold page_of. rewrite <- length_zero_iff_nil.
  rewrite length_firstn, length_skipn. lia.
Qed.

Lemma page_events_app (t1 t2 : Trace) :
  page_events (t1 ++ t2) = page_events t1 ++ page_events t2.
Proof. apply filter_app. Qed.

(** A run that returns success went through the pages in order, with
    the pause after each, up to the first query without rows. *)
Lemma page_loop_success (bs : Z) (dry : bool) (P : Z) (fuel : nat) :
  0 < P ->
  forall offset w w' (t : Trace),
    0 <= offset ->
    (offset =? 0) && dry = false ->
    page_loop to_point server table fuel bs dry P offset w
    = (Some true, w', t) ->
    exists k : nat,
      page_events t = page_skeleton table P offset k /\
      (forall j, (j < k)%nat ->
         Z.of_nat j * P + offset < Z.of_nat (length table)) /\
      Z.of_nat (length table) <= Z.of_nat k * P + offset.
Proof.
  intros HP. induction fuel as [|fuel IH]; intros offset w w' t Ho Hdry H.
  - cbn in H. inversion H.
  - rewrite page_loop_step in H by exact Hdry. cbn zeta in H.
    destruct (page_of table P offset) as [|r rows] eqn:Hrows.
    + inversion H; subst. exists 0%nat. split.
      * destruct (offset =? 0); reflexivity.
      * split; [intros j Hj; lia|].
        apply page_of_nil in Hrows; lia.
    + destruct (bulk_insert server _ (Some bs) w) as [[ok w1] t1] eqn:Hb.
      destruct ok; [|inversion H].
      destruct (page_loop to_point server table fuel bs dry P (offset + P) w1)
        as [[r2 w2] t2] eqn:Hl.
      inversion H; subst. clear H.
      assert (Hne : (offset + P =? 0) && dry = false).
      { replace (offset + P =? 0) with false; [reflexivity|].
        symmetry. apply Z.eqb_neq. lia. }
      assert (Hop : 0 <= offset + P) by lia.
      destruct (IH _ _ _ _ Hop Hne Hl) as (k & Hk & Hlt & Hge).
      assert (Hlen : offset < Z.of_nat (length table)).
      { destruct (Z_lt_le_dec offset (Z.of_nat (length table))) as [|Hle];
          [assumption|].
        apply (proj2 (page_of_nil P offset HP Ho)) in Hle. congruence. }
      exists (S k). split.
      * rewrite page_events_app.
        replace (page_events (if offset =? 0 then [EvCount] else []))
          with (@nil (Event Row DataPoint))
          by (destruct (offset =? 0); reflexivity).
        cbn [app]. unfold page_events at 1. cbn [filter is_page_event].
        fold (page_events (t1 ++ EvSleep PagePacing 1 :: t2)).
        rewrite page_events_app.
        rewrite (dispatch_no_page_events t1)
          by (eapply bulk_insert_events; exact Hb).
        cbn [app]. unfold page_events at 1. cbn [filter is_page_event].
        fold (page_events t2). rewrite Hk, <- Hrows. reflexivity.
      * split.
        -- intros j Hj. destruct j as [|j]; [lia|].
           specialize (Hlt j ltac:(lia)). lia.
        -- lia.
Qed.

Lemma page_count_unique (P : Z) (k : nat) :
  0 < P ->
  (forall j, (j < k)%nat -> Z.of_nat j * P < Z.of_nat (length table)) ->
  Z.of_nat (length table) <= Z.of_nat k * P ->
  k = Z.to_nat (page_count table P).
Proof.
  intros HP Hlt Hge. unfold page_count.
  assert (Hk : Z.of_nat k = (Z.of_nat (length table) + P - 1) / P).
  { apply Z.div_unique with (Z.of_nat (length table) + P - 1 - P * Z.of_nat k);
      [|lia].
    left. destruct k as [|k]; [lia|].
    specialize (Hlt k ltac:(lia)). lia. }
  rewrite <- Hk. rewrite Nat2Z.id. reflexivity.
Qed.

Lemma fetched_app (t1 t2 : Trace) :
  fetched (t1 ++ t2) = fetched t1 ++ fetched t2.
Proof. apply flat_map_app. Qed.

Lemma fetched_page_events (t : Trace) : fetched (page_events t) = fetched t.
Proof.
  induction t as [|e t IH]; [reflexivity|].
  unfold page_events in *. cbn [filter].
  destruct e as [b | s r | site secs | | l o rows]; cbn; try exact IH.
  - destruct site; cbn; exact IH.
  - f_equal. exact IH.
Qed.

Lemma fetched_page_skeleton (P offset : Z) (k : nat) :
  @fetched Row DataPoint (page_skeleton table P offset k)
  = map (fun j => page_of table P (Z.of_nat j * P + offset)) (seq 0 k)
    ++ [[]].
Proof.
  revert offset. induction k as [|k IH]; intros offset; [reflexivity|].
  cbn [page_skeleton fetched flat_map app seq map].
  fold (@fetched Row DataPoint (page_skeleton table P (offset + P) k)).
  rewrite IH. cbn [Z.of_nat Z.mul Z.add]. f_equal.
  rewrite <- seq_shift, map_map. f_equal. apply map_ext. intros j.
  f_equal. lia.
Qed.

Lemma expected_pages_concat (P : Z) :
  0 < P -> concat (expected_pages table P) = table.
Proof.
  intros HP. unfold expected_pages, page_of.
  rewrite (map_ext _ (fun k => firstn (Z.to_nat P)
                                 (skipn (k * Z.to_nat P) table))).
  - apply chunks_concat; [lia|]. unfold page_count.
    pose proof (ceil_div_covers (Z.of_nat (length table)) P HP ltac:(lia)).
    assert (0 <= (Z.of_nat (length table) + P - 1) / P)
      by (apply Z.div_pos; lia).
    apply Nat2Z.inj_le. rewrite Nat2Z.inj_mul, !Z2Nat.id by lia. assumption.
  - intros k. f_equal. f_equal.
    rewrite Z2Nat.inj_mul by lia. rewrite Nat2Z.id. reflexivity.
Qed.

Lemma expected_pages_nonempty (P : Z) :
  0 < P -> Forall (fun page => page <> []) (expected_pages table P).
Proof.
  intros HP. unfold expected_pages. apply Forall_forall.
  intros page Hin. apply in_map_iff in Hin. destruct Hin as (j & <- & Hj).
  apply in_seq in Hj. intros Hnil.
  apply page_of_nil in Hnil; [|lia|lia].
  unfold page_count in Hj.
  assert (Hc : Z.of_nat j < (Z.of_nat (length table) + P - 1) / P).
  { assert (0 <= (Z.of_nat (length table) + P - 1) / P)
      by (apply Z.div_pos; lia). lia. }
  assert (Hd : (Z.of_nat j + 1) * P <= Z.of_nat (length table) + P - 1).
  { pose proof (Z.mul_div_le (Z.of_nat (length table) + P - 1) P HP).
    nia. }
  lia.
Qed.

(** The run is over before the fuel of [sync_pages] is. *)
Lemma page_loop_total (bs : Z) (dry : bool) (P : Z) (fuel : nat) :
  forall offset w,
    0 <= offset ->
    (length table - Z.to_nat offset < fuel)%nat ->
    fst (fst (page_loop to_point server table fuel bs dry P offset w))
    <> None.
Proof.
  induction fuel as [|fuel IH]; intros offset w Ho Hf; [lia|].
  destruct ((offset =? 0) && dry) eqn:Hdry.
  - apply andb_prop in Hdry. destruct Hdry as [H0 ->].
    cbn [page_loop]. unfold bind, count_rows, ret. rewrite H0. cbn.
    discriminate.
  - rewrite page_loop_step by exact Hdry. cbn zeta.
    destruct (page_of table P offset) as [|r rows] eqn:Hrows;
      [cbn; discriminate|].
    destruct (bulk_insert server _ (Some bs) w) as [[ok w1] t1].
    destruct ok; [|cbn; discriminate].
    assert (HP : 0 < P).
    { destruct (Z_lt_le_dec 0 P) as [|Hle]; [assumption|].
      unfold page_of in Hrows.
      replace (Z.to_nat P) with 0%nat in Hrows by lia. discriminate. }
    assert (Hlen : offset < Z.of_nat (length table)).
    { destruct (Z_lt_le_dec offset (Z.of_nat (length table))) as [|Hle];
        [assumption|].
      apply (proj2 (page_of_nil P offset HP Ho)) in Hle. congruence. }
    assert (Hop : 0 <= offset + P) by lia.
    assert (Hfu : (length table - Z.to_nat (offset + P) < fuel)%nat) by lia.
    specialize (IH (offset + P) w1 Hop Hfu).
    destruct (page_loop to_point server table fuel bs dry P (offset + P) w1)
      as [[r2 w2] t2].
    exact IH.
Qed.

Lemma sync_pages_success (P bs : Z) (w w' : World) (t : Trace) :
  0 < P ->
  sync_pages to_point server table P bs false w = (Some true, w', t) ->
  page_events t = page_skeleton table P 0 (Z.to_nat (page_count table P)).
Proof.
  intros HP H. unfold sync_pages in H.
  apply page_loop_success in H; [|exact HP|lia|reflexivity].
  destruct H as (k & Hk & Hlt & Hge).
  rewrite Z.add_0_r in Hge.
  assert (Hlt' : forall j, (j < k)%nat ->
                   Z.of_nat j * P < Z.of_nat (length table)).
  { intros j Hj. specialize (Hlt j Hj). lia. }
  rewrite <- (page_count_unique P k HP Hlt' Hge). exact Hk.
Qed.

Lemma page_count_ceiling (P : Z) :
  0 < P ->
  Z.of_nat (length table) <= page_count table P * P
    < Z.of_nat (length table) + P.
Proof.
  intros HP. unfold page_count.
  pose proof (Z.div_mod (Z.of_nat (length table) + P - 1) P ltac:(lia)).
  pose proof (Z.mod_pos_bound (Z.of_nat (length table) + P - 1) P HP).
  lia.
Qed.

Lemma page_of_length (P offset : Z) :
  0 <= P -> 0 <= offset ->
  Z.of_nat (length (page_of table P offset))
  = Z.min P (Z.max 0 (Z.of_nat (length table) - offset)).
Proof.
  intros HP Ho. unfold page_of. rewrite length_firstn, length_skipn. lia.
Qed.


Lemma page_skeleton_tail (P offset : Z) (k : nat) :
  exists t0 : Trace,
    page_skeleton table P offset (S k)
    = t0 ++ [EvFetch P (offset + Z.of_nat k * P)
               (page_of table P (offset + Z.of_nat k * P));
             EvSleep PagePacing 1;
             EvFetch P (offset + Z.of_nat k * P + P) []].
Proof.
  revert offset. induction k as [|k IH]; intros offset.
  - exists []. cbn [page_skeleton app Z.of_nat Z.mul].
    rewrite Z.add_0_r. reflexivity.
  - destruct (IH (offset + P)) as (t0 & Ht0).
    exists (EvFetch P offset (page_of table P offset)
            :: EvSleep PagePacing 1 :: t0).
    change (page_skeleton table P offset (S (S k)))
      with (EvFetch P offset (page_of table P offset)
            :: EvSleep PagePacing 1
            :: @page_skeleton Row DataPoint table P (offset + P) (S k)).
    rewrite Ht0. cbn [app].
    replace (offset + P + Z.of_nat k * P)
      with (offset + Z.of_nat (S k) * P) by lia.
    reflexivity.
Qed.

(** C7 (as amended). In a paginated run whose pages all dispatch
    successfully, the fixed pause of one second comes after every page
    that was sent, the last one included: the page-level events are a
    query and a pause for each of the ceil(N / P) non-empty pages, in
    order, and then the query that finds no rows.  So the pause lies
    between any two consecutive queries, also between the last non-empty
    page and the terminating empty query, and none follows that query. *)
Theorem pause_follows_every_page (P bs : Z) (w : World) :
  0 < P ->
  let '(r, w', t) :=
    @sync_pages Row DataPoint to_point server table P bs false w in
  r = Some true ->
  page_events t = page_skeleton table P 0 (Z.to_nat (page_count table P)) /\
  (table <> [] ->
   exists (t0 : Trace) (last : Z),
     page_events t
     = t0 ++ [EvFetch P last (page_of table P last);
              EvSleep PagePacing 1;
              EvFetch P (last + P) []] /\
     page_of table P last <> [] /\
     Z.of_nat (length table) <= last + P).
Proof.
  intros HP.
  destruct (@sync_pages Row DataPoint to_point server table P bs false w)
    as [[r w'] t] eqn:Hrun.
  intros ->. pose proof (sync_pages_success P bs w w' t HP Hrun) as Hs.
  split; [exact Hs|]. intros Hne. rewrite Hs.
  pose proof (page_count_ceiling P HP) as Hc.
  assert (Hlen : 0 < Z.of_nat (length table)).
  { destruct table; [congruence | cbn; lia]. }
  assert (Hpos : 0 < page_count table P) by nia.
  destruct (Z.to_nat (page_count table P)) as [|k] eqn:Hk; [lia|].
  destruct (page_skeleton_tail P 0 k) as (t0 & Ht0).
  exists t0, (Z.of_nat k * P). cbn [Z.add] in Ht0.
  split; [exact Ht0|].
  assert (Hk' : page_count table P = Z.of_nat k + 1) by lia.
  split.
  - intros Hnil. apply page_of_nil in Hnil; [|exact HP|nia]. nia.
  - nia.
Qed.

(** A run against an endpoint that accepts everything succeeds. *)
Lemma page_loop_all_ok (bs : Z) (dry : bool) (P : Z) (fuel : nat) :
  (forall n, server n = Status 200) -> bs <> 0 ->
  forall offset w,
    0 <= offset ->
    (length table - Z.to_nat offset < fuel)%nat ->
    fst (fst (page_loop to_point server table fuel bs dry P offset w))
    = Some true.
Proof.
  intros Hall Hbs.
  induction fuel as [|fuel IH]; intros offset w Ho Hf; [lia|].
  destruct ((offset =? 0) && dry) eqn:Hdry.
  - apply andb_prop in Hdry. destruct Hdry as [H0 ->].
    cbn [page_loop]. unfold bind, count_rows, ret. rewrite H0. reflexivity.
  - rewrite page_loop_step by exact Hdry. cbn zeta.
    destruct (page_of table P offset) as [|r rows] eqn:Hrows;
      [reflexivity|].
    destruct (bulk_insert_all_ok (map to_point (r :: rows)) (Some bs) w Hall)
      as (t1 & Hb & _).
    { discriminate. }
    { cbn [py_or]. destruct (bs =? 0) eqn:E; [|exact Hbs].
      apply Z.eqb_eq in E. congruence. }
    rewrite Hb.
    assert (HP : 0 < P).
    { destruct (Z_lt_le_dec 0 P) as [|Hle]; [assumption|].
      unfold page_of in Hrows.
      replace (Z.to_nat P) with 0%nat in Hrows by lia. discriminate. }
    assert (Hlen : offset < Z.of_nat (length table)).
    { destruct (Z_lt_le_dec offset (Z.of_nat (length table))) as [|Hle];
        [assumption|].
      apply (proj2 (page_of_nil P offset HP Ho)) in Hle. congruence. }
    assert (Hop : 0 <= offset + P) by lia.
    assert (Hfu : (length table - Z.to_nat (offset + P) < fuel)%nat) by lia.
    match goal with
    | |- context [page_loop to_point server table fuel bs dry P (offset + P) ?w1] =>
        specialize (IH (offset + P) w1 Hop Hfu);
        destruct (page_loop to_point server table fuel bs dry P (offset + P) w1)
          as [[r2 w2] t2]
    end.
    exact IH.
Qed.

(** A run that returns failure ends with the call of [bulk_insert] that
    failed, right after the query of its page. *)
Lemma page_loop_failure (bs : Z) (dry : bool) (P : Z) (fuel : nat) :
  forall offset w w' (t : Trace),
    0 <= offset ->
    page_loop to_point server table fuel bs dry P offset w
    = (Some false, w', t) ->
    exists (t0 : Trace) (off : Z) (wp : World) (tb : Trace),
      t = t0 ++ EvFetch P off (page_of table P off) :: tb /\
      page_of table P off <> [] /\
      bulk_insert server (map to_point (page_of table P off)) (Some bs) wp
      = (false, w', tb) /\
      page_events tb = [].
Proof.
  induction fuel as [|fuel IH]; intros offset w w' t Ho H.
  - cbn in H. inversion H.
  - destruct ((offset =? 0) && dry) eqn:Hdry.
    + apply andb_prop in Hdry. destruct Hdry as [H0 ->].
      cbn [page_loop] in H. unfold bind, count_rows, ret in H.
      rewrite H0 in H. cbn in H. inversion H.
    + rewrite page_loop_step in H by exact Hdry. cbn zeta in H.
      destruct (page_of table P offset) as [|r rows] eqn:Hrows;
        [inversion H|].
      destruct (bulk_insert server (map to_point (r :: rows)) (Some bs) w)
        as [[ok w1] t1] eqn:Hb.
      destruct ok.
      * assert (HP : 0 < P).
        { destruct (Z_lt_le_dec 0 P) as [|Hle]; [assumption|].
          unfold page_of in Hrows.
          replace (Z.to_nat P) with 0%nat in Hrows by lia. discriminate. }
        assert (Hop : 0 <= offset + P) by lia.
        destruct (page_loop to_point server table fuel bs dry P (offset + P) w1)
          as [[r2 w2] t2] eqn:Hl.
        inversion H; subst. clear H.
        destruct (IH _ _ _ _ Hop Hl) as (t0 & off & wp & tb & -> & Hne & Hbf & Hpe).
        exists ((if offset =? 0 then [EvCount] else [])
                ++ EvFetch P offset (r :: rows) :: t1
                ++ EvSleep PagePacing 1 :: t0), off, wp, tb.
        split; [|split; [exact Hne | split; [exact Hbf | exact Hpe]]].
        rewrite <- !app_assoc. cbn [app]. rewrite <- !app_assoc.
        reflexivity.
      * inversion H; subst. clear H.
        exists (if offset =? 0 then [EvCount] else []), offset, w, t1.
        rewrite Hrows. split; [reflexivity|].
        split; [discriminate|]. split; [exact Hb|].
        apply dispatch_no_page_events. eapply bulk_insert_events. exact Hb.
Qed.


(** ** More on the dispatcher: delivery, bounds and pacing *)

Lemma is_ok_200 (r : Response) : is_ok r = true <-> r = Status 200.
Proof.
  destruct r as [code | |]; cbn; split; intros H; try discriminate.
  - apply Z.eqb_eq in H. congruence.
  - inversion H. reflexivity.
Qed.

Lemma accepted_of_app (p : nat) (l1 l2 : list (list DataPoint)) :
  accepted_of server p (l1 ++ l2)
  = accepted_of server p l1 ++ accepted_of server (p + length l1) l2.
Proof.
  revert p. induction l1 as [|b l1 IH]; intros p; cbn [app accepted_of length].
  - rewrite Nat.add_0_r. reflexivity.
  - rewrite IH, <- app_assoc. do 3 f_equal. lia.
Qed.

Lemma accepted_of_none (b : list DataPoint) (p n : nat) :
  Forall (fun r => r <> Status 200) (responses_from server p n) ->
  accepted_of server p (repeat b n) = [].
Proof.
  revert p. induction n as [|n IH]; intros p H; [reflexivity|].
  rewrite responses_from_succ in H. inversion H as [|r rs Hr Hrs]; subst.
  cbn [repeat accepted_of].
  destruct (is_ok (server p)) eqn:E; [apply is_ok_200 in E; contradiction|].
  cbn [app]. apply IH. exact Hrs.
Qed.

(** The one POST of a batch that is answered with 200 is its last. *)
Lemma retry_loop_accepted (batch : list DataPoint) (attempts : list nat) :
  forall w ok w' (t : Trace),
    retry_loop server batch attempts w = (ok, w', t) ->
    posts w' = (posts w + length (posted t))%nat /\
    (length (posted t) <= length attempts)%nat /\
    rate w' = adapt_all (adapts t) (rate w) /\
    accepted_of server (posts w) (posted t) = (if ok then [batch] else []).
Proof.
  intros w ok w' t H. apply retry_loop_spec in H.
  destruct H as (n & Hp & Hn & Hpost & _ & Hrate & _ & Hok).
  rewrite Hpost, repeat_length.
  split; [exact Hp|]. split; [exact Hn|]. split; [exact Hrate|].
  destruct ok.
  - destruct Hok as (m & -> & H200 & Hall).
    replace (S m) with (m + 1)%nat by lia.
    rewrite repeat_app, accepted_of_app, repeat_length.
    rewrite (accepted_of_none batch _ m Hall). cbn [app repeat accepted_of].
    rewrite H200. reflexivity.
  - apply accepted_of_none. exact Hok.
Qed.

(** The loop over the batches: what it posted, and what was accepted. *)
Lemma batch_loop_delivery (data : list DataPoint) (eff : Z) (idx : list Z) :
  forall w ok w' (t : Trace),
    batch_loop server data eff idx w = (ok, w', t) ->
    posts w' = (posts w + length (posted t))%nat /\
    (length (posted t) <= max_retries * length idx)%nat /\
    rate w' = adapt_all (adapts t) (rate w) /\
    (if ok then
       accepted_of server (posts w) (posted t)
       = map (fun i => slice data i (i + eff)) idx
     else
       exists pre i later,
         idx = pre ++ i :: later /\
         accepted_of server (posts w) (posted t)
         = map (fun i => slice data i (i + eff)) pre).
Proof.
  induction idx as [|i idx IH]; intros w ok w' t H.
  - cbn in H. inversion H; subst. cbn. rewrite Nat.add_0_r.
    repeat split; lia.
  - cbn [batch_loop] in H. unfold bind in H.
    destruct (send_batch server _ w) as [[ok1 w1] t1] eqn:Hs.
    unfold send_batch in Hs. apply retry_loop_accepted in Hs.
    destruct Hs as (Hp1 & Hn1 & Hr1 & Ha1). rewrite length_seq in Hn1.
    destruct ok1.
    + destruct (pace_batches_spec data eff i w1) as (tp & Hpace & Hpp & Hpa & _).
      rewrite Hpace in H.
      destruct (batch_loop server data eff idx w1) as [[ok2 w2] t2] eqn:Hl.
      inversion H; subst. clear H.
      destruct (IH _ _ _ _ Hl) as (Hp2 & Hn2 & Hr2 & Ha2).
      rewrite !posted_app, !adapts_app, Hpp, Hpa. cbn [app].
      rewrite length_app, adapt_all_app, accepted_of_app, Ha1, <- Hp1, <- Hr1.
      split; [lia|]. split; [cbn [length]; lia|]. split; [exact Hr2|].
      destruct ok.
      * rewrite Ha2. reflexivity.
      * destruct Ha2 as (pre & j & later & -> & Ha2).
        exists (i :: pre), j, later. split; [reflexivity|].
        rewrite Ha2. reflexivity.
    + unfold ret in H. inversion H; subst. clear H.
      rewrite app_nil_r. split; [exact Hp1|]. split; [cbn [length]; lia|].
      split; [exact Hr1|].
      exists [], i, idx. split; [reflexivity|]. exact Ha1.
Qed.

Lemma batch_indices_length (data : list DataPoint) (eff : Z) :
  0 < eff ->
  Z.of_nat (length (batch_indices data eff))
  = (Z.of_nat (length data) + eff - 1) / eff.
Proof.
  intros Heff. unfold batch_indices, py_range.
  replace (0 <? eff) with true by (symmetry; apply Z.ltb_lt; exact Heff).
  rewrite length_map, length_seq.
  destruct (0 <? Z.of_nat (length data)) eqn:E.
  - apply Z2Nat.id. apply Z.div_pos; lia.
  - apply Z.ltb_ge in E. assert (Z.of_nat (length data) = 0) as -> by lia.
    cbn [Z.to_nat Z.of_nat]. symmetry. apply Z.div_small. lia.
Qed.

(** A call of [bulk_insert]: what it posted, and what was accepted. *)
Lemma bulk_insert_delivery (data : list DataPoint) (batch_size : option Z) :
  forall w ok w' (t : Trace),
    bulk_insert server data batch_size w = (ok, w', t) ->
    let eff := py_or batch_size (current_batch_size (rate w)) in
    posts w' = (posts w + length (posted t))%nat /\
    (length (posted t) <= 5 * length (batch_indices data eff))%nat /\
    rate w' = adapt_all (adapts t) (rate w) /\
    (eff <> 0 ->
     if ok then
       accepted_of server (posts w) (posted t)
       = map (fun i => slice data i (i + eff)) (batch_indices data eff)
     else
       exists pre i later,
         batch_indices data eff = pre ++ i :: later /\
         accepted_of server (posts w) (posted t)
         = map (fun i => slice data i (i + eff)) pre).
Proof.
  intros w ok w' t Hb eff. unfold bulk_insert in Hb.
  destruct data as [|x data'].
  - inversion Hb; subst. cbn [posted flat_map length adapts adapt_all fold_left].
    split; [lia|]. split; [lia|]. split; [reflexivity|]. intros _.
    unfold batch_indices, py_range. cbn [length Z.of_nat accepted_of].
    destruct (0 <? eff); reflexivity.
  - unfold bind, get_batch_size in Hb. fold eff in Hb.
    destruct (eff =? 0) eqn:E.
    + inversion Hb; subst. cbn. split; [lia|]. split; [lia|].
      split; [reflexivity|]. apply Z.eqb_eq in E. intros; contradiction.
    + destruct (batch_loop server (x :: data') eff _ w)
        as [[ok1 w1] t1] eqn:Hl.
      inversion Hb; subst. clear Hb. cbn [app].
      apply batch_loop_delivery in Hl. destruct Hl as (Hp & Hn & Hr & Ha).
      unfold batch_indices. unfold max_retries in Hn.
      split; [exact Hp|]. split; [exact Hn|]. split; [exact Hr|].
      intros _. exact Ha.
Qed.

(** X2. A call of [bulk_insert] with a positive batch size that returns
    success has had every batch of the input accepted exactly once, in
    order: the batches answered with 200, put end to end, are the input.
    Retried attempts of a batch are not among them. *)
Theorem bulk_insert_delivers_once (data : list DataPoint)
    (batch_size : option Z) (w : World) :
  0 < py_or batch_size (current_batch_size (rate w)) ->
  let '(ok, w', t) := @bulk_insert Row DataPoint server data batch_size w in
  ok = true ->
  accepted_of server (posts w) (posted t)
  = map (fun i => slice data i
                    (i + py_or batch_size (current_batch_size (rate w))))
        (batch_indices data
           (py_or batch_size (current_batch_size (rate w)))) /\
  concat (accepted_of server (posts w) (posted t)) = data.
Proof.
  intros Heff.
  destruct (@bulk_insert Row DataPoint server data batch_size w)
    as [[ok w'] t] eqn:Hb.
  intros ->. apply bulk_insert_delivery in Hb.
  destruct Hb as (_ & _ & _ & Ha). specialize (Ha ltac:(lia)).
  split; [exact Ha|]. rewrite Ha. apply slices_cover. exact Heff.
Qed.

(** X3. A call of [bulk_insert] with a positive batch size that returns
    failure has had accepted the batches before the one it gave up,
    each once and in order: what the endpoint accepted is a proper
    prefix of the input, a whole number of batches long.  The batch
    given up and all later ones are not among the accepted. *)
Theorem bulk_insert_failure_keeps_prefix (data : list DataPoint)
    (batch_size : option Z) (w : World) :
  0 < py_or batch_size (current_batch_size (rate w)) ->
  let eff := py_or batch_size (current_batch_size (rate w)) in
  let '(ok, w', t) := @bulk_insert Row DataPoint server data batch_size w in
  ok = false ->
  exists pre i later,
    batch_indices data eff = pre ++ i :: later /\
    accepted_of server (posts w) (posted t)
    = map (fun i => slice data i (i + eff)) pre /\
    concat (accepted_of server (posts w) (posted t))
    = firstn (length pre * Z.to_nat eff) data /\
    (length pre * Z.to_nat eff < length data)%nat.
Proof.
  intros Heff eff.
  destruct (@bulk_insert Row DataPoint server data batch_size w)
    as [[ok w'] t] eqn:Hb.
  intros ->. apply bulk_insert_delivery in Hb.
  destruct Hb as (_ & _ & _ & Ha).
  destruct (Ha ltac:(fold eff; lia)) as (pre & i & later & Hidx & Hacc).
  exists pre, i, later. split; [exact Hidx|]. split; [exact Hacc|].
  rewrite Hacc. apply (slices_prefix data eff pre i later Heff Hidx).
Qed.

(** X4. A call of [bulk_insert] makes at most [max_retries] (5) POSTs
    for each batch of its input, whatever the endpoint answers. *)
Theorem bulk_insert_post_bound (data : list DataPoint)
    (batch_size : option Z) (w : World) :
  let eff := py_or batch_size (current_batch_size (rate w)) in
  let '(ok, w', t) := @bulk_insert Row DataPoint server data batch_size w in
  (length (posted t) <= 5 * length (batch_indices data eff))%nat /\
  posts w' = (posts w + length (posted t))%nat /\
  (0 < eff ->
   Z.of_nat (length (batch_indices data eff))
   = (Z.of_nat (length data) + eff - 1) / eff).
Proof.
  intros eff.
  destruct (@bulk_insert Row DataPoint server data batch_size w)
    as [[ok w'] t] eqn:Hb.
  apply bulk_insert_delivery in Hb. destruct Hb as (Hp & Hn & _ & _).
  split; [exact Hn|]. split; [exact Hp|]. intros Heff.
  apply batch_indices_length. exact Heff.
Qed.

Lemma adapt_all_bounded (calls : list (bool * bool)) (s : RateState) :
  rate_bounded s -> rate_bounded (adapt_all calls s).
Proof.
  unfold adapt_all. revert s.
  induction calls as [|[sc rl] calls IH]; intros s Hs; [exact Hs|].
  cbn [fold_left fst snd]. apply IH. apply adaptive_delay_bounded. exact Hs.
Qed.

(** The rate state changes only by the controller calls of the trace. *)
Lemma page_loop_rate (bs : Z) (dry : bool) (P : Z) (fuel : nat) :
  forall offset w r w' (t : Trace),
    page_loop to_point server table fuel bs dry P offset w = (r, w', t) ->
    rate w' = adapt_all (adapts t) (rate w) /\
    posts w' = (posts w + length (posted t))%nat.
Proof.
  induction fuel as [|fuel IH]; intros offset w r w' t H.
  - cbn in H. inversion H; subst. cbn. split; [reflexivity | lia].
  - destruct ((offset =? 0) && dry) eqn:Hdry.
    + apply andb_prop in Hdry. destruct Hdry as [H0 ->].
      cbn [page_loop] in H. unfold bind, count_rows, ret in H.
      rewrite H0 in H. cbn in H. inversion H; subst. cbn.
      split; [reflexivity | lia].
    + rewrite page_loop_step in H by exact Hdry. cbn zeta in H.
      assert (Hpre : forall (u : Trace),
                 adapts ((if offset =? 0 then [EvCount] else []) ++ u)
                 = adapts u /\
                 posted ((if offset =? 0 then [EvCount] else []) ++ u)
                 = posted u).
      { intros u. destruct (offset =? 0); split; reflexivity. }
      destruct (page_of table P offset) as [|x rows] eqn:Hrows.
      * inversion H; subst. destruct (Hpre [EvFetch P offset []]) as [-> ->].
        cbn. split; [reflexivity | lia].
      * destruct (bulk_insert server (map to_point (x :: rows)) (Some bs) w)
          as [[ok w1] t1] eqn:Hb.
        apply bulk_insert_delivery in Hb. destruct Hb as (Hp1 & _ & Hr1 & _).
        destruct ok.
        -- destruct (page_loop to_point server table fuel bs dry P
                       (offset + P) w1) as [[r2 w2] t2] eqn:Hl.
           inversion H; subst. clear H.
           destruct (IH _ _ _ _ _ Hl) as (Hr2 & Hp2).
           destruct (Hpre (EvFetch P offset (x :: rows)
                           :: t1 ++ EvSleep PagePacing 1 :: t2)) as [-> ->].
           cbn [adapts posted flat_map app].
           fold (adapts (t1 ++ EvSleep PagePacing 1 :: t2)).
           fold (posted (t1 ++ EvSleep PagePacing 1 :: t2)).
           rewrite adapts_app, posted_app. cbn [adapts posted flat_map app].
           fold (adapts t2). fold (posted t2).
           rewrite adapt_all_app, <- Hr1, length_app. split; [exact Hr2 | lia].
        -- inversion H; subst. clear H.
           destruct (Hpre (EvFetch P offset (x :: rows) :: t1)) as [-> ->].
           cbn [adapts posted flat_map app]. fold (adapts t1). fold (posted t1).
           split; assumption.
Qed.

(** X1. Whatever the endpoint answers, a call of [bulk_insert] and a
    whole paginated run leave the rate state within the bounds of the
    data model (batch size in [[200, 5000]], delay in [[0.5, 60.0]]) when
    they start within them. *)
Theorem runs_keep_rate_bounded (w : World) :
  rate_bounded (rate w) ->
  (forall (data : list DataPoint) (batch_size : option Z),
      rate_bounded
        (rate (snd (fst (@bulk_insert Row DataPoint server data batch_size
                           w))))) /\
  (forall (batch_size : Z) (dry_run : bool),
      rate_bounded
        (rate (snd (fst (_sync_all_data_paginated to_point server table
                           batch_size dry_run w))))).
Proof.
  intros Hw. split.
  - intros data batch_size.
    destruct (@bulk_insert Row DataPoint server data batch_size w)
      as [[ok w'] t] eqn:Hb.
    apply bulk_insert_delivery in Hb. destruct Hb as (_ & _ & Hr & _).
    cbn [fst snd]. rewrite Hr. apply adapt_all_bounded. exact Hw.
  - intros batch_size dry_run.
    unfold _sync_all_data_paginated, sync_pages.
    destruct (page_loop to_point server table (S (length table)) batch_size
                dry_run page_size 0 w) as [[r w'] t] eqn:Hl.
    apply page_loop_rate in Hl. destruct Hl as [Hr _].
    cbn [fst snd]. rewrite Hr. apply adapt_all_bounded. exact Hw.
Qed.

(** What the endpoint accepted in the pages from an offset on. *)
Lemma page_loop_delivery (bs : Z) (dry : bool) (P : Z) (fuel : nat) :
  0 < bs -> 0 < P ->
  forall offset w ok w' (t : Trace),
    0 <= offset ->
    (offset =? 0) && dry = false ->
    page_loop to_point server table fuel bs dry P offset w
    = (Some ok, w', t) ->
    let rest := skipn (Z.to_nat offset) table in
    if ok then
      concat (accepted_of server (posts w) (posted t)) = map to_point rest
    else
      exists n, (n < length rest)%nat /\
        concat (accepted_of server (posts w) (posted t))
        = map to_point (firstn n rest).
Proof.
  intros Hbs HP. induction fuel as [|fuel IH]; intros offset w ok w' t Ho Hdry H.
  - cbn in H. inversion H.
  - rewrite page_loop_step in H by exact Hdry. cbn zeta in H.
    assert (Hpre : forall (u : Trace),
               posted ((if offset =? 0 then [EvCount] else []) ++ u)
               = posted u).
    { intros u. destruct (offset =? 0); reflexivity. }
    cbn zeta.
    destruct (page_of table P offset) as [|x rows] eqn:Hrows.
    + inversion H; subst. rewrite Hpre. cbn.
      apply page_of_nil in Hrows; [|assumption..].
      rewrite skipn_all2 by lia. reflexivity.
    + destruct (bulk_insert server (map to_point (x :: rows)) (Some bs) w)
        as [[ok1 w1] t1] eqn:Hb.
      apply bulk_insert_delivery in Hb. cbn zeta in Hb.
      assert (Heff : py_or (Some bs) (current_batch_size (rate w)) = bs).
      { cbn [py_or]. replace (bs =? 0) with false; [reflexivity|].
        symmetry. apply Z.eqb_neq. lia. }
      rewrite Heff in Hb. destruct Hb as (Hp1 & _ & _ & Ha1).
      specialize (Ha1 ltac:(lia)).
      assert (Hsplit : skipn (Z.to_nat offset) table
                       = (x :: rows) ++ skipn (Z.to_nat (offset + P)) table).
      { rewrite <- Hrows. unfold page_of.
        rewrite Z2Nat.inj_add by lia. rewrite Nat.add_comm, <- skipn_skipn.
        symmetry. apply firstn_skipn. }
      destruct ok1.
      * destruct (page_loop to_point server table fuel bs dry P
                    (offset + P) w1) as [[r2 w2] t2] eqn:Hl.
        inversion H; subst. clear H.
        assert (Hne : (offset + P =? 0) && dry = false).
        { replace (offset + P =? 0) with false; [reflexivity|].
          symmetry. apply Z.eqb_neq. lia. }
        assert (Hop : 0 <= offset + P) by lia.
        specialize (IH _ _ _ _ _ Hop Hne Hl). cbn zeta in IH.
        rewrite Hpre. cbn [posted flat_map app].
        fold (posted (t1 ++ EvSleep PagePacing 1 :: t2)).
        rewrite posted_app. cbn [posted flat_map app]. fold (posted t2).
        rewrite accepted_of_app, concat_app, <- Hp1, Ha1.
        unfold batch_indices. rewrite slices_cover by exact Hbs.
        rewrite Hsplit.
        destruct ok.
        -- rewrite IH, map_app. reflexivity.
        -- destruct IH as (n & Hn & IH).
           exists (length (x :: rows) + n)%nat. split.
           ++ rewrite length_app. lia.
           ++ rewrite IH, firstn_app_2, map_app. reflexivity.
      * inversion H; subst. clear H.
        destruct Ha1 as (pre & i & later & Hidx & Hacc).
        rewrite Hpre. cbn [posted flat_map app]. fold (posted t1).
        rewrite Hacc.
        unfold batch_indices in Hidx.
        destruct (slices_prefix _ bs pre i later Hbs Hidx) as [Hc Hlt].
        rewrite Hc, Hsplit.
        exists (length pre * Z.to_nat bs)%nat. split.
        -- rewrite length_app. rewrite length_map in Hlt. lia.
        -- rewrite firstn_map. f_equal. rewrite firstn_app.
           rewrite length_map in Hlt.
           replace (length pre * Z.to_nat bs - length (x :: rows))%nat
             with 0%nat by lia.
           cbn [firstn]. rewrite app_nil_r. reflexivity.
Qed.

(** X5. A paginated run with a positive batch size that returns success
    has had every row of the staging table accepted exactly once, in
    the order of the query: the accepted batches, end to end, are the
    table's data points.  A run that returns failure has had accepted a
    proper prefix of them. *)
Theorem paginated_run_delivers_table (batch_size : Z) (w : World) :
  0 < batch_size ->
  let '(r, w', t) :=
    _sync_all_data_paginated to_point server table batch_size false w in
  let delivered := concat (accepted_of server (posts w) (posted t)) in
  r <> None /\
  (r = Some true -> delivered = map to_point table) /\
  (r = Some false ->
   exists n, (n < length table)%nat /\
             delivered = map to_point (firstn n table)).
Proof.
  intros Hbs.
  pose proof (page_loop_total batch_size false page_size (S (length table))
                0 w ltac:(lia) ltac:(lia)) as Htot.
  unfold _sync_all_data_paginated, sync_pages.
  destruct (page_loop to_point server table (S (length table)) batch_size
              false page_size 0 w) as [[r w'] t] eqn:Hl.
  cbn [fst] in Htot. cbn zeta. split; [exact Htot|].
  split; intros ->;
    apply (page_loop_delivery batch_size false page_size _ Hbs) in Hl;
    try (unfold page_size; lia); try reflexivity; exact Hl.
Qed.

(** A batch size below zero: [range(0, total, step)] is empty. *)
Lemma bulk_insert_negative (data : list DataPoint) (b : Z) (w : World) :
  b < 0 -> @bulk_insert Row DataPoint server data (Some b) w = (true, w, []).
Proof.
  intros Hb. unfold bulk_insert. destruct data as [|x data']; [reflexivity|].
  assert (E0 : (b =? 0) = false) by (apply Z.eqb_neq; lia).
  assert (E1 : (0 <? b) = false) by (apply Z.ltb_ge; lia).
  assert (E2 : (Z.of_nat (length (x :: data')) <? 0) = false)
    by (apply Z.ltb_ge; lia).
  unfold bind, get_batch_size, py_or, py_range.
  rewrite E0, E0, E1, E2. reflexivity.
Qed.

Lemma page_loop_negative (b : Z) (dry : bool) (P : Z) (fuel : nat) :
  b < 0 ->
  forall offset w r w' (t : Trace),
    page_loop to_point server table fuel b dry P offset w = (r, w', t) ->
    w' = w /\ posted t = [] /\ r <> Some false.
Proof.
  intros Hb. induction fuel as [|fuel IH]; intros offset w r w' t H.
  - cbn in H. inversion H; subst. repeat split. discriminate.
  - destruct ((offset =? 0) && dry) eqn:Hdry.
    + apply andb_prop in Hdry. destruct Hdry as [H0 ->].
      cbn [page_loop] in H. unfold bind, count_rows, ret in H.
      rewrite H0 in H. cbn in H. inversion H; subst.
      repeat split. discriminate.
    + rewrite page_loop_step in H by exact Hdry. cbn zeta in H.
      assert (Hpre : forall (u : Trace),
                 posted ((if offset =? 0 then [EvCount] else []) ++ u)
                 = posted u).
      { intros u. destruct (offset =? 0); reflexivity. }
      destruct (page_of table P offset) as [|x rows] eqn:Hrows.
      * inversion H; subst. rewrite Hpre. repeat split. discriminate.
      * rewrite bulk_insert_negative in H by exact Hb.
        destruct (page_loop to_point server table fuel b dry P
                    (offset + P) w) as [[r2 w2] t2] eqn:Hl.
        inversion H; subst. clear H.
        destruct (IH _ _ _ _ _ Hl) as (Hw & Hp & Hr).
        rewrite Hpre. cbn [posted flat_map app]. fold (posted t2).
        repeat split; assumption.
Qed.

(** X6. A batch size below zero sends nothing and reports success: a
    call of [bulk_insert] returns [True] at once, with no POST, no
    sleep and the rate state as it was, and a paginated run goes
    through its pages and returns [True] without a single POST. *)
Theorem negative_batch_size_sends_nothing (b : Z) (w : World) :
  b < 0 ->
  (forall data : list DataPoint,
      @bulk_insert Row DataPoint server data (Some b) w = (true, w, [])) /\
  (forall dry_run : bool,
      let '(r, w', t) :=
        _sync_all_data_paginated to_point server table b dry_run w in
      r = Some true /\ w' = w /\ posted t = []).
Proof.
  intros Hb. split.
  - intros data. apply bulk_insert_negative. exact Hb.
  - intros dry_run.
    pose proof (page_loop_total b dry_run page_size (S (length table))
                  0 w ltac:(lia) ltac:(lia)) as Htot.
    unfold _sync_all_data_paginated, sync_pages.
    destruct (page_loop to_point server table (S (length table)) b
                dry_run page_size 0 w) as [[r w'] t] eqn:Hl.
    cbn [fst] in Htot.
    apply (page_loop_negative b dry_run page_size _ Hb) in Hl.
    destruct Hl as (Hw & Hp & Hr).
    split; [|split; assumption].
    destruct r as [[|]|]; congruence.
Qed.

(** *** The sleeps of a batch *)

Lemma retry_steps_app (t1 t2 : Trace) :
  retry_steps (t1 ++ t2) = retry_steps t1 ++ retry_steps t2.
Proof. apply flat_map_app. Qed.

Lemma sleeps_app (site : SleepSite) (t1 t2 : Trace) :
  sleeps site (t1 ++ t2) = sleeps site t1 ++ sleeps site t2.
Proof. apply flat_map_app. Qed.

(** One attempt: the POST, followed by a backoff sleep exactly when
    the loop goes on. *)
Lemma attempt_body_steps (batch : list DataPoint) (k : nat) (w : World) :
  forall a w' (t : Trace), attempt_body server batch k w = (a, w', t) ->
    sleeps BatchPacing t = [] /\
    retry_steps t
    = match a with Continue => [DoPost; DoBackoff] | _ => [DoPost] end /\
    (a = Continue -> is_last k = true ->
     is_429 (server (posts w)) = true) /\
    (a = ReturnFalse -> is_429 (server (posts w)) = false).
Proof.
  intros a w' t. unfold attempt_body, bind, post, adapt, sleep, get_delay, ret.
  destruct (server (posts w)) as [code | |] eqn:Hr.
  - destruct (code =? 200) eqn:E200; [|destruct (code =? 429) eqn:E429;
      [|destruct (is_last k) eqn:El]];
      cbn; intros H; inversion H; subst; clear H; cbn;
      repeat split; try discriminate; try congruence.
  - destruct (is_last k) eqn:El; cbn; intros H; inversion H; subst; cbn;
      repeat split; try discriminate; try congruence.
  - destruct (is_last k) eqn:El; cbn; intros H; inversion H; subst; cbn;
      repeat split; try discriminate; try congruence.
Qed.

Lemma retry_loop_no_pacing (batch : list DataPoint) (attempts : list nat) :
  forall w ok w' (t : Trace),
    retry_loop server batch attempts w = (ok, w', t) ->
    sleeps BatchPacing t = [].
Proof.
  induction attempts as [|k later IH]; intros w ok w' t H.
  - cbn in H. inversion H. reflexivity.
  - cbn [retry_loop] in H. unfold bind in H.
    destruct (attempt_body server batch k w) as [[a w1] t1] eqn:Ha.
    apply attempt_body_steps in Ha. destruct Ha as (Hs & _).
    destruct a.
    + cbn in H. inversion H; subst. rewrite app_nil_r. exact Hs.
    + destruct (retry_loop server batch later w1) as [[ok2 w2] t2] eqn:Hl.
      inversion H; subst. rewrite sleeps_app, Hs. cbn [app].
      eapply IH; exact Hl.
    + cbn in H. inversion H; subst. rewrite app_nil_r. exact Hs.
Qed.

(** The retry loop from attempt [a] to the last one. *)
Lemma retry_loop_steps (batch : list DataPoint) (k : nat) :
  forall a w ok w' (t : Trace), (a + S k = max_retries)%nat ->
    retry_loop server batch (seq a (S k)) w = (ok, w', t) ->
    if ok then
      exists n, (n <= k)%nat /\
        retry_steps t = concat (repeat [DoPost; DoBackoff] n) ++ [DoPost]
    else
      retry_steps t
      = concat (repeat [DoPost; DoBackoff] k)
        ++ (if is_429 (server (posts w + k)) then [DoPost; DoBackoff]
            else [DoPost]).
Proof.
  induction k as [|k IH]; intros a w ok w' t Hak H.
  - cbn [seq retry_loop] in H. unfold bind in H.
    destruct (attempt_body server batch a w) as [[r w1] t1] eqn:Ha.
    apply attempt_body_steps in Ha. destruct Ha as (_ & Hst & Hc & Hf).
    rewrite Nat.add_0_r.
    assert (Hlast : is_last a = true).
    { unfold max_retries in Hak. assert (a = 4%nat) as -> by lia.
      reflexivity. }
    destruct r; cbn in H; inversion H; subst; clear H;
      rewrite app_nil_r, Hst; cbn [repeat concat app].
    + exists 0%nat. split; [lia | reflexivity].
    + rewrite (Hc eq_refl Hlast). reflexivity.
    + rewrite (Hf eq_refl). reflexivity.
  - change (seq a (S (S k))) with (a :: seq (S a) (S k)) in H.
    cbn [retry_loop] in H. unfold bind in H.
    destruct (attempt_body server batch a w) as [[r w1] t1] eqn:Ha.
    pose proof Ha as Ha'. apply attempt_body_spec in Ha'.
    destruct Ha' as (Hp & _ & _ & _ & _ & _ & Hlast).
    apply attempt_body_steps in Ha. destruct Ha as (_ & Hst & _ & _).
    destruct r.
    + cbn in H. inversion H; subst. clear H. rewrite app_nil_r, Hst.
      exists 0%nat. split; [lia | reflexivity].
    + destruct (retry_loop server batch (seq (S a) (S k)) w1)
        as [[ok2 w2] t2] eqn:Hl.
      inversion H; subst. clear H.
      apply IH in Hl; [|lia]. rewrite retry_steps_app, Hst.
      destruct ok.
      * destruct Hl as (n & Hn & ->). exists (S n). split; [lia|].
        reflexivity.
      * rewrite Hl, Hp.
        replace (S (posts w) + k)%nat with (posts w + S k)%nat by lia.
        reflexivity.
    + specialize (Hlast eq_refl). unfold is_last, max_retries in *.
      apply negb_true_iff in Hlast. apply Nat.ltb_ge in Hlast. lia.
Qed.

(** X7. Within a batch no POST follows another without a backoff sleep
    between them.  A batch that is sent went through at most four such
    sleeps; a batch that is given up went through five POSTs with a
    sleep after each of the first four, and after the fifth too when
    its answer is 429: the client then sleeps the longest backoff of all
    and only afterwards reports the failure. *)
Theorem retries_alternate_with_backoff (batch : list DataPoint) (w : World) :
  let '(ok, w', t) := @send_batch Row DataPoint server batch w in
  if ok then
    exists n, (n <= 4)%nat /\
      retry_steps t = concat (repeat [DoPost; DoBackoff] n) ++ [DoPost]
  else
    retry_steps t
    = [DoPost; DoBackoff; DoPost; DoBackoff; DoPost; DoBackoff;
       DoPost; DoBackoff; DoPost]
      ++ (if is_429 (server (posts w + 4)) then [DoBackoff] else []).
Proof.
  destruct (@send_batch Row DataPoint server batch w) as [[ok w'] t] eqn:Hs.
  unfold send_batch in Hs.
  apply (retry_loop_steps batch 4 0) in Hs; [|reflexivity].
  destruct ok; [exact Hs|]. rewrite Hs.
  destruct (is_429 (server (posts w + 4))); reflexivity.
Qed.

Lemma pace_batches_sleeps (data : list DataPoint) (eff i : Z) (w : World) :
  exists t : Trace,
    pace_batches data eff i w = (tt, w, t) /\
    sleeps BatchPacing t
    = (if i + eff <? Z.of_nat (length data)
       then [current_delay (rate w)] else []).
Proof.
  unfold pace_batches, bind, get_delay, sleep, ret.
  destruct (i + eff <? Z.of_nat (length data)); eexists;
    (split; [reflexivity|]); reflexivity.
Qed.

(** The sleeps between the batches of a call. *)
Lemma batch_loop_pacing (data : list DataPoint) (eff : Z) (idx : list Z) :
  forall w ok w' (t : Trace),
    rate_bounded (rate w) ->
    batch_loop server data eff idx w = (ok, w', t) ->
    Forall delay_in_range (sleeps BatchPacing t) /\
    (ok = true ->
     length (sleeps BatchPacing t)
     = length (filter (fun i => i + eff <? Z.of_nat (length data)) idx)).
Proof.
  induction idx as [|i idx IH]; intros w ok w' t Hw H.
  - cbn in H. inversion H; subst. cbn. split; [constructor | reflexivity].
  - cbn [batch_loop] in H. unfold bind in H.
    destruct (send_batch server _ w) as [[ok1 w1] t1] eqn:Hs.
    unfold send_batch in Hs. pose proof Hs as Hs'.
    apply retry_loop_no_pacing in Hs'.
    apply retry_loop_accepted in Hs. destruct Hs as (_ & _ & Hr1 & _).
    assert (Hw1 : rate_bounded (rate w1)).
    { rewrite Hr1. apply adapt_all_bounded. exact Hw. }
    destruct ok1.
    + destruct (pace_batches_sleeps data eff i w1) as (tp & Hpace & Hps).
      rewrite Hpace in H.
      destruct (batch_loop server data eff idx w1) as [[ok2 w2] t2] eqn:Hl.
      inversion H; subst. clear H.
      destruct (IH _ _ _ _ Hw1 Hl) as (Hall & Hcount).
      rewrite !sleeps_app, Hs', Hps. cbn [app filter]. split.
      * apply Forall_app. split; [|exact Hall].
        destruct (i + eff <? Z.of_nat (length data));
          [constructor; [apply Hw1 | constructor] | constructor].
      * intros Hok. rewrite length_app, (Hcount Hok).
        destruct (i + eff <? Z.of_nat (length data)); reflexivity.
    + unfold ret in H. inversion H; subst. clear H.
      rewrite app_nil_r, Hs'. split; [constructor | discriminate].
Qed.


(** *** Runs over an endpoint that never fails five times in a row *)

Lemma send_batch_recovers (batch : list DataPoint) (w : World) :
  (exists m, (m < max_retries)%nat /\ server (posts w + m) = Status 200) ->
  fst (fst (@send_batch Row DataPoint server batch w)) = true.
Proof.
  intros (m & Hm & H200).
  destruct (send_batch server batch w) as [[ok w'] t] eqn:Hs.
  cbn [fst]. destruct ok; [reflexivity|]. exfalso.
  pose proof Hs as Hs'. unfold send_batch in Hs'.
  apply retry_loop_spec in Hs'.
  destruct Hs' as (n & Hp & _ & _ & _ & _ & _ & Hall).
  unfold send_batch in Hs.
  apply (retry_loop_exhausts batch max_retries 0%nat) in Hs; [|reflexivity].
  assert (n = max_retries) by lia. subst n.
  exact (responses_from_nth _ _ m _ Hall Hm H200).
Qed.

Lemma batch_loop_recovers (data : list DataPoint) (eff : Z) (idx : list Z) :
  (forall p, exists m, (m < max_retries)%nat /\ server (p + m) = Status 200) ->
  forall w, fst (fst (@batch_loop Row DataPoint server data eff idx w)) = true.
Proof.
  intros Hserver. induction idx as [|i idx IH]; intros w; [reflexivity|].
  cbn [batch_loop]. unfold bind.
  pose proof (send_batch_recovers (slice data i (i + eff)) w
                (Hserver (posts w))) as Hs.
  destruct (send_batch server (slice data i (i + eff)) w) as [[ok w1] t1].
  cbn [fst] in Hs. subst ok.
  destruct (pace_batches data eff i w1) as [[u w2] t2].
  specialize (IH w2).
  destruct (batch_loop server data eff idx w2) as [[ok3 w3] t3].
  exact IH.
Qed.

Lemma bulk_insert_recovers (data : list DataPoint) (b : Z) (w : World) :
  b <> 0 ->
  (forall p, exists m, (m < max_retries)%nat /\ server (p + m) = Status 200) ->
  fst (fst (@bulk_insert Row DataPoint server data (Some b) w)) = true.
Proof.
  intros Hb Hserver. unfold bulk_insert.
  destruct data as [|x data']; [reflexivity|].
  unfold bind, get_batch_size, py_or.
  assert (E : (b =? 0) = false) by (apply Z.eqb_neq; exact Hb).
  rewrite E, E.
  pose proof (batch_loop_recovers (x :: data') b
                (py_range (Z.of_nat (length (x :: data'))) b) Hserver w)
    as Hl.
  destruct (batch_loop server (x :: data') b _ w) as [[ok w1] t1].
  exact Hl.
Qed.

Lemma page_loop_recovers (bs : Z) (dry : bool) (P : Z) (fuel : nat) :
  bs <> 0 ->
  (forall p, exists m, (m < max_retries)%nat /\ server (p + m) = Status 200) ->
  forall offset w,
    fst (fst (page_loop to_point server table fuel bs dry P offset w))
    <> Some false.
Proof.
  intros Hbs Hserver. induction fuel as [|fuel IH]; intros offset w.
  - cbn. discriminate.
  - destruct ((offset =? 0) && dry) eqn:Hdry.
    + apply andb_prop in Hdry. destruct Hdry as [H0 ->].
      cbn [page_loop]. unfold bind, count_rows, ret. rewrite H0. cbn.
      discriminate.
    + rewrite page_loop_step by exact Hdry. cbn zeta.
      destruct (page_of table P offset) as [|x rows]; [cbn; discriminate|].
      pose proof (bulk_insert_recovers (map to_point (x :: rows)) bs w Hbs
                    Hserver) as Hb.
      destruct (bulk_insert server (map to_point (x :: rows)) (Some bs) w)
        as [[ok w1] t1].
      cbn [fst] in Hb. subst ok. specialize (IH (offset + P) w1).
      destruct (page_loop to_point server table fuel bs dry P (offset + P)
                  w1) as [[r2 w2] t2].
      exact IH.
Qed.

(** X17. Failures that never come five in a row do not fail a run: over
    an endpoint that, from any request on, answers one of the next five
    with 200, a paginated run with a positive batch size returns [True]
    and has had the whole staging table accepted, each row once and in
    the order of the query. *)
Theorem transient_failures_do_not_fail_run (batch_size : Z) (w : World) :
  0 < batch_size ->
  (forall p, exists m, (m < 5)%nat /\ server (p + m) = Status 200) ->
  let '(r, w', t) :=
    _sync_all_data_paginated to_point server table batch_size false w in
  r = Some true /\
  concat (accepted_of server (posts w) (posted t)) = map to_point table.
Proof.
  intros Hbs Hserver.
  pose proof (page_loop_total batch_size false page_size (S (length table))
                0 w ltac:(lia) ltac:(lia)) as Htot.
  pose proof (page_loop_recovers batch_size false page_size
                (S (length table)) ltac:(lia) Hserver 0 w) as Hrec.
  unfold _sync_all_data_paginated, sync_pages.
  destruct (page_loop to_point server table (S (length table)) batch_size
              false page_size 0 w) as [[r w'] t] eqn:Hl.
  cbn [fst] in Htot, Hrec.
  assert (Hr : r = Some true) by (destruct r as [[|]|]; congruence).
  split; [exact Hr|]. subst r.
  apply (page_loop_delivery batch_size false page_size _ Hbs) in Hl;
    try (unfold page_size; lia); try reflexivity.
  exact Hl.
Qed.

End EngineFacts.

(** ** The properties at sample inputs *)

(** C1, as first stated, fails: one batch whose first attempt is answered
    with 429 and whose second with 200 is sent with two controller
    calls, a rate-limited update and then a success update, not with one
    call for the final outcome; the shrink of the first attempt stays in
    the rate state (batch size 500, delay 1.2). *)
Lemma controller_called_twice_for_one_batch :
  @bulk_insert unit unit limited_once [tt] None fresh_world
  = (true,
     {| rate := {| current_batch_size := 500;
                   current_delay := 1.2;
                   success_count := 1;
                   failure_count := 0 |};
        posts := 2 |},
     [EvPost [tt]; EvAdapt false true; EvSleep RetryBackoff 0.6;
      EvPost [tt]; EvAdapt true false])
  /\ adapts (snd (@bulk_insert unit unit limited_once [tt] None fresh_world))
     = [(false, true); (true, false)]
  /\ length (adapts (snd (@bulk_insert unit unit limited_once [tt] None
                            fresh_world))) = 2%nat.
Proof. repeat split; reflexivity. Qed.

Lemma rate_limited_then_ok_witness :
  limited_once (posts fresh_world) = Status 429 /\
  limited_once (S (posts fresh_world)) = Status 200 /\
  exists t : list (Event unit unit),
    send_batch limited_once [tt] fresh_world
    = (true,
       {| rate := _adaptive_delay true false
                    (_adaptive_delay false true init_rate);
          posts := 2 |}, t) /\
    posted t = [[tt]; [tt]] /\
    adapts t = [(false, true); (true, false)].
Proof.
  split; [reflexivity|]. split; [reflexivity|].
  destruct (rate_limited_then_ok unit unit limited_once [tt] fresh_world
              eq_refl eq_refl) as (t & Hs & Hp & Ha & _).
  exists t. split; [exact Hs|]. split; [exact Hp | exact Ha].
Defined.

Lemma run_3500_in_four_batches_witness :
  Z.of_nat (length (repeat tt 3500)) = 3500 /\
  rate fresh_world = init_rate /\
  (forall n, always_ok n = Status 200) /\
  map (fun b => Z.of_nat (length b))
      (posted (snd (@bulk_insert unit unit always_ok (repeat tt 3500)
                      (Some 1000) fresh_world)))
  = [1000; 1000; 1000; 500] /\
  current_batch_size
    (rate (snd (fst (@bulk_insert unit unit always_ok (repeat tt 3500)
                       (Some 1000) fresh_world)))) = 1100.
Proof.
  assert (Hlen : Z.of_nat (length (repeat tt 3500)) = 3500)
    by (vm_compute; reflexivity).
  split; [exact Hlen|]. split; [reflexivity|].
  split; [intros n; reflexivity|].
  pose proof (run_3500_in_four_batches unit unit always_ok (repeat tt 3500)
                (Some 1000) fresh_world Hlen eq_refl
                (or_intror eq_refl) (fun n => eq_refl)) as H.
  destruct (@bulk_insert unit unit always_ok (repeat tt 3500) (Some 1000)
              fresh_world) as [[ok w'] t].
  destruct H as (_ & _ & Hl & _ & _ & _ & Hb & _).
  split; [exact Hl | exact Hb].
Defined.


Lemma pause_follows_every_page_witness :
  0 < 2 /\
  fst (fst (@sync_pages nat nat (fun r => r) always_ok [1; 2; 3]%nat
              2 10 false fresh_world)) = Some true /\
  page_events (snd (@sync_pages nat nat (fun r => r) always_ok [1; 2; 3]%nat
                      2 10 false fresh_world))
  = [EvFetch 2 0 [1; 2]%nat; EvSleep PagePacing 1;
     EvFetch 2 2 [3]%nat; EvSleep PagePacing 1;
     EvFetch 2 4 []].
Proof.
  split; [lia|].
  pose proof (pause_follows_every_page nat nat (fun r => r) always_ok
                [1; 2; 3]%nat 2 10 fresh_world ltac:(lia)) as H.
  destruct (@sync_pages nat nat (fun r => r) always_ok [1; 2; 3]%nat
              2 10 false fresh_world) as [[r w'] t] eqn:Hrun.
  assert (Hr : r = Some true).
  { vm_compute in Hrun. congruence. }
  split; [exact Hr|].
  destruct (H Hr) as (Hs & _). exact Hs.
Defined.


Lemma table_60000_length : Z.of_nat (length table_60000) = 60000.
Proof. unfold table_60000. rewrite repeat_length. reflexivity. Qed.

(** C7, as first stated, fails: in the run over 60000 rows with every
    request accepted, the three pages of 25000, 25000 and 10000 rows are
    each followed by the pause, the last page too; the run ends with the
    query at offset 75000 that finds no rows. *)
Lemma pause_after_last_page :
  fst (fst (@_sync_all_data_paginated unit unit (fun r => r) always_ok
              table_60000 1000 false fresh_world)) = Some true /\
  page_events (snd (@_sync_all_data_paginated unit unit (fun r => r)
                      always_ok table_60000 1000 false fresh_world))
  = [EvFetch 25000 0 (page_of table_60000 25000 0);
     EvSleep PagePacing 1;
     EvFetch 25000 25000 (page_of table_60000 25000 25000);
     EvSleep PagePacing 1;
     EvFetch 25000 50000 (page_of table_60000 25000 50000);
     EvSleep PagePacing 1;
     EvFetch 25000 75000 []] /\
  map (fun page => Z.of_nat (length page))
      [page_of table_60000 25000 0; page_of table_60000 25000 25000;
       page_of table_60000 25000 50000]
  = [25000; 25000; 10000].
Proof.
  unfold _sync_all_data_paginated, page_size.
  assert (Hok : fst (fst (@sync_pages unit unit (fun r => r) always_ok
                            table_60000 25000 1000 false fresh_world))
                = Some true).
  { unfold sync_pages. apply page_loop_all_ok;
      [intros n; reflexivity | lia | lia | lia]. }
  split; [exact Hok|].
  destruct (@sync_pages unit unit (fun r => r) always_ok table_60000 25000
              1000 false fresh_world) as [[r w'] t] eqn:Hrun.
  cbn [fst snd] in *. subst r.
  pose proof (sync_pages_success unit unit (fun r => r) always_ok
                table_60000 25000 1000 fresh_world w' t ltac:(lia) Hrun)
    as Hs.
  split.
  - rewrite Hs. unfold page_count. rewrite table_60000_length.
    change ((60000 + 25000 - 1) / 25000) with 3.
    change (Z.to_nat 3) with 3%nat. reflexivity.
  - cbn [map].
    rewrite (page_of_length unit table_60000 25000 0),
      (page_of_length unit table_60000 25000 25000),
      (page_of_length unit table_60000 25000 50000) by lia.
    rewrite table_60000_length. reflexivity.
Qed.

(** The same on a single row, the trace in full. *)
Example pause_after_only_page :
  @_sync_all_data_paginated unit unit (fun r => r) always_ok [tt] 1000 false
    fresh_world
  = (Some true,
     {| rate := {| current_batch_size := 1000;
                   current_delay := 0.6;
                   success_count := 1;
                   failure_count := 0 |};
        posts := 1 |},
     [EvCount; EvFetch 25000 0 [tt]; EvPost [tt]; EvAdapt true false;
      EvSleep PagePacing 1; EvFetch 25000 25000 []]).
Proof. reflexivity. Qed.

(** ** Stage 2 *)

Section Stage2Facts.

Variables Row DataPoint : Type.
Variable to_point : Row -> DataPoint.
Variable server : nat -> Response.
Variable table : list Row.
Variable health : Response.
Variable recent_rows : Z -> list Row.
Variable timeseries_id_of : Row -> String.string.

Local Abbreviation stage2 :=
  (sync_local_to_production to_point server table health recent_rows
     timeseries_id_of).

(** The paginated run without a POST: a dry run. *)
Lemma paginated_dry_run (batch_size : Z) (w : World) :
  _sync_all_data_paginated to_point server table batch_size true w
  = (Some true, w, [EvCount]).
Proof. reflexivity. Qed.

(** X9. Stage 2 sends nothing when the health check fails or the run is
    a dry run, in both of its modes: no POST is made and the client's
    rate state is as before.  With the health check failed it returns
    [False] without a single query; a dry run with the health check
    passed returns [True]. *)
Theorem stage2_unreachable_or_dry_sends_nothing (batch_size : Z)
    (dry_run : bool) (days_back : option Z) (w : World) :
  test_connection health = false \/ dry_run = true ->
  let '(r, w', t) := stage2 batch_size dry_run days_back w in
  posted t = [] /\ w' = w /\
  r = Some (test_connection health) /\
  (test_connection health = false -> t = []).
Proof.
  intros H. unfold sync_local_to_production.
  destruct (test_connection health) eqn:Hh; cbn [negb].
  - destruct H as [H | ->]; [discriminate|].
    destruct days_back as [d|].
    + destruct (get_unsent_data _ _ _ _ _ _ _) as [|p ps];
        cbn; repeat split; discriminate.
    + rewrite paginated_dry_run. cbn. repeat split; discriminate.
  - cbn. repeat split; reflexivity.
Qed.

(** X10. In the mode for recent data stage 2 reads at most ten batches'
    worth of rows, the first [batch_size * 10] of the query, and sends
    those in at most ten batches with at most fifty POSTs.  A run that
    returns [True] has had exactly these rows accepted, each once and in
    order: recent rows beyond the first [batch_size * 10] are not sent,
    and the result does not tell. *)
Theorem recent_sync_sends_first_ten_batches (batch_size days : Z)
    (w : World) :
  0 < batch_size ->
  test_connection health = true ->
  let sent :=
    map to_point
      (firstn (Z.to_nat (batch_size * 10)) (recent_rows days)) in
  let '(r, w', t) := stage2 batch_size false (Some days) w in
  r <> None /\
  (length (batch_indices sent batch_size) <= 10)%nat /\
  (length (posted t) <= 50)%nat /\
  (r = Some true ->
   concat (accepted_of server (posts w) (posted t)) = sent).
Proof.
  intros Hbs Hh sent. unfold sync_local_to_production. rewrite Hh.
  cbn [negb]. unfold get_unsent_data. cbn [str_truthy]. fold sent.
  assert (Hlen : (length (batch_indices sent batch_size) <= 10)%nat).
  { apply Nat2Z.inj_le. rewrite batch_indices_length by exact Hbs.
    assert (Hs : Z.of_nat (length sent) <= batch_size * 10).
    { unfold sent. rewrite length_map, length_firstn. lia. }
    assert ((Z.of_nat (length sent) + batch_size - 1) / batch_size < 11)
      by (apply Z.div_lt_upper_bound; lia).
    lia. }
  clearbody sent. destruct sent as [|p ps].
  - cbn [posted flat_map length accepted_of concat ret].
    split; [discriminate|]. split; [exact Hlen|]. split; [lia|].
    reflexivity.
  - unfold bind.
    destruct (bulk_insert server (p :: ps) (Some batch_size) w)
      as [[ok w1] t1] eqn:Hb.
    apply bulk_insert_delivery in Hb. cbn zeta in Hb.
    assert (Heff : py_or (Some batch_size) (current_batch_size (rate w))
                   = batch_size).
    { cbn [py_or]. replace (batch_size =? 0) with false; [reflexivity|].
      symmetry. apply Z.eqb_neq. lia. }
    rewrite Heff in Hb. destruct Hb as (_ & Hn & _ & Ha).
    cbn [ret]. rewrite app_nil_r.
    split; [discriminate|]. split; [exact Hlen|]. split; [lia|].
    intros Hr. inversion Hr; subst ok.
    rewrite (Ha ltac:(lia)). apply slices_cover. exact Hbs.
Qed.


End Stage2Facts.

(** ** Stage 1 *)

Section Stage1Facts.

Variables Sensor DataPoint : Type.
Variable connect : bool.
Variable local_test_connection : bool.
Variable get_ecosense_sensors : bool -> list Sensor.
Variable timeseries_identifier : Sensor -> String.string.
Variable get_sensor_data : Z -> Sensor -> list DataPoint.
Variable stored : nat -> bool.

Local Abbreviation stage1 :=
  (sync_aquarius_to_local connect local_test_connection
     get_ecosense_sensors timeseries_identifier get_sensor_data stored).

Local Abbreviation Trace1 := (list (Stage1Event Sensor DataPoint)).

(** The number of writes among the [k] from the [n]-th on that
    succeed. *)
Lemma sensor_loop_spec (days_back : Z) (sensors : list Sensor) :
  forall (writes : nat) (c c' : Z) (t : Trace1),
    sensor_loop get_sensor_data stored days_back sensors writes c = (c', t) ->
    queried t = sensors /\
    stores t = filter has_points (map (get_sensor_data days_back) sensors) /\
    naps t = length (stores t) /\
    filter is_session_event t = [] /\
    c' = c + Z.of_nat (length (filter stored
                                 (seq writes (length (stores t))))).
Proof.
  induction sensors as [|s later IH]; intros writes c c' t H.
  - cbn in H. inversion H; subst. cbn. repeat split; lia.
  - cbn [sensor_loop] in H. cbn [map filter].
    destruct (get_sensor_data days_back s) as [|p ps] eqn:Hd.
    + destruct (sensor_loop get_sensor_data stored days_back later writes c)
        as [c1 t1] eqn:Hl.
      inversion H; subst. clear H.
      destruct (IH _ _ _ _ Hl) as (Hq & Hs & Hn & Hse & Hc).
      cbn [has_points]. cbn [queried stores flat_map app].
      fold (queried t1). fold (stores t1).
      split; [f_equal; exact Hq|]. split; [exact Hs|].
      split; [exact Hn|]. split; [exact Hse | exact Hc].
    + cbn zeta in H.
      destruct (sensor_loop get_sensor_data stored days_back later
                  (S writes) _) as [c1 t1] eqn:Hl.
      inversion H; subst. clear H.
      destruct (IH _ _ _ _ Hl) as (Hq & Hs & Hn & Hse & Hc).
      cbn [has_points]. cbn [queried stores flat_map app].
      fold (queried t1). fold (stores t1).
      split; [f_equal; exact Hq|]. split; [f_equal; exact Hs|].
      split; [unfold naps in *; cbn [filter length]; f_equal; exact Hn|].
      split; [exact Hse|].
      rewrite Hc. cbn [length seq filter bulk_insert_local].
      destruct (stored writes); cbn [length]; lia.
Qed.

Lemma filter_stored_positive (n k : nat) :
  (0 < length (filter stored (seq n k)))%nat <->
  exists m, (m < k)%nat /\ stored (n + m) = true.
Proof.
  split.
  - intros H. destruct (filter stored (seq n k)) as [|x l] eqn:E;
      [cbn in H; lia|].
    assert (Hin : In x (filter stored (seq n k)))
      by (rewrite E; left; reflexivity).
    apply filter_In in Hin. destruct Hin as [Hin Hx].
    apply in_seq in Hin. exists (x - n)%nat. split; [lia|].
    replace (n + (x - n))%nat with x by lia. exact Hx.
  - intros (m & Hm & Hs).
    assert (Hin : In (n + m)%nat (filter stored (seq n k))).
    { apply filter_In. split; [apply in_seq; lia | exact Hs]. }
    destruct (filter stored (seq n k)); [contradiction | cbn; lia].
Qed.


(** X13. Stage 1 closes the Aquarius session it opened, on every path:
    a run that connected ends with the one call of [disconnect], after
    everything else, also when it returns early; a run that could not
    connect does nothing more.  A dry run asks for no data and writes
    nothing, and returns [True] whenever the checks pass and Aquarius
    lists a sensor, even if none of the listed sensors is among the
    requested ones. *)
Theorem stage1_closes_its_session (days_back : Z)
    (use_inventory dry_run : bool)
    (specific_sensors : option (list String.string)) :
  let '(r, t) := stage1 days_back use_inventory dry_run specific_sensors in
  (if connect then
     exists mid : Trace1,
       t = EvConnect :: mid ++ [EvDisconnect] /\
       filter is_session_event mid = []
   else r = false /\ t = [EvConnect]) /\
  (dry_run = true ->
   queried t = [] /\ stores t = [] /\
   r = connect && local_test_connection
       && has_points (get_ecosense_sensors use_inventory)).
Proof.
  unfold sync_aquarius_to_local.
  destruct connect; cbn [negb andb];
    [|split; [split; reflexivity | intros _; repeat split]].
  destruct local_test_connection; cbn [negb andb].
  2:{ split; [exists [EvTestLocal]; split; reflexivity|].
      intros _. repeat split. }
  destruct (get_ecosense_sensors use_inventory) as [|s l] eqn:Hsens.
  { split; [eexists; split; reflexivity|]. intros _. repeat split. }
  cbn [has_points].
  destruct dry_run.
  { split; [eexists; split; reflexivity|]. intros _. repeat split. }
  destruct (sensor_loop get_sensor_data stored days_back _ 0 0)
    as [c t] eqn:Hloop.
  apply sensor_loop_spec in Hloop. destruct Hloop as (_ & _ & _ & Hse & _).
  split; [|discriminate].
  exists (EvTestLocal :: EvListSensors use_inventory :: t).
  split; [reflexivity|]. cbn [filter is_session_event]. exact Hse.
Qed.

End Stage1Facts.

(** ** Both stages *)

Section PipelineFacts.

Variables Sensor Row DataPoint : Type.
Variable connect : bool.
Variable local_test_connection : bool.
Variable get_ecosense_sensors : bool -> list Sensor.
Variable timeseries_identifier : Sensor -> String.string.
Variable get_sensor_data : Z -> Sensor -> list DataPoint.
Variable stored : nat -> bool.
Variable to_point : Row -> DataPoint.
Variable server : nat -> Response.
Variable table : list Row.
Variable health : Response.
Variable recent_rows : Z -> list Row.
Variable timeseries_id_of : Row -> String.string.

Local Abbreviation stage1 :=
  (sync_aquarius_to_local connect local_test_connection
     get_ecosense_sensors timeseries_identifier get_sensor_data stored).

Local Abbreviation both :=
  (sync_data connect local_test_connection get_ecosense_sensors
     timeseries_identifier get_sensor_data stored to_point server table
     health recent_rows timeseries_id_of).

(** X14. [sync_data] starts stage 2 only after a stage 1 that returned
    [True] and never in a dry run.  The stage 2 it starts is the one for
    all data, whatever [days_back] says: a run that returns [True] has
    had every row of the staging table accepted by the endpoint, once
    and in the order of the query, not only the rows of the last
    [days_back] days. *)
Theorem sync_data_sends_whole_table (days_back : Z)
    (use_inventory dry_run : bool)
    (specific_sensors : option (list String.string)) (w : World) :
  let s1 := stage1 days_back use_inventory dry_run specific_sensors in
  let '(r, w', t1, t2) :=
    both days_back use_inventory dry_run specific_sensors w in
  r <> None /\ t1 = snd s1 /\
  (fst s1 = false \/ dry_run = true ->
   r = Some (fst s1) /\ w' = w /\ t2 = []) /\
  (dry_run = false -> r = Some true ->
   fst s1 = true /\ test_connection health = true /\
   concat (accepted_of server (posts w) (posted t2)) = map to_point table).
Proof.
  intros s1. unfold sync_data. fold s1. destruct s1 as [ok1 t1].
  cbn [fst snd].
  destruct (negb ok1 || dry_run) eqn:Hskip.
  - split; [discriminate|]. split; [reflexivity|].
    split; [intros _; repeat split|].
    intros -> Hr. inversion Hr; subst. discriminate.
  - apply orb_false_elim in Hskip. destruct Hskip as [Hok ->].
    apply negb_false_iff in Hok. subst ok1.
    unfold sync_local_to_production.
    destruct (test_connection health) eqn:Hh; cbn [negb].
    + pose proof (page_loop_total Row DataPoint to_point server table
                    1000 false page_size (S (length table)) 0 w
                    ltac:(lia) ltac:(lia)) as Htot.
      unfold _sync_all_data_paginated, sync_pages.
      destruct (page_loop to_point server table (S (length table)) 1000
                  false page_size 0 w) as [[r w'] t2] eqn:Hl.
      cbn [fst] in Htot.
      split; [destruct r; [discriminate | congruence]|].
      split; [reflexivity|].
      split; [intros [H | H]; discriminate|].
      intros _ Hr. split; [reflexivity|]. split; [reflexivity|].
      destruct r as [[|]|]; try discriminate.
      apply (page_loop_delivery Row DataPoint to_point server table 1000
               false page_size) in Hl;
        try (unfold page_size; lia); try reflexivity.
      exact Hl.
    + cbn. split; [discriminate|]. split; [reflexivity|].
      split; [intros [H | H]; discriminate|].
      intros _ Hr. discriminate.
Qed.

End PipelineFacts.

(** ** The checks of [main] *)

Section MainFacts.

Local Open Scope string_scope.

Variable getenv : String.string -> option String.string.
Variable int_accepts : String.string -> bool.

Lemma missing_vars_nil (args : Args) :
  missing_vars getenv args = [] ->
  forall var, In var (required_vars args) -> env_set getenv var = true.
Proof.
  unfold missing_vars. intros H var Hin.
  destruct (env_set getenv var) eqn:E; [reflexivity|].
  assert (Hf : In var (filter (fun v => negb (env_set getenv v))
                         (required_vars args))).
  { apply filter_In. split; [exact Hin | rewrite E; reflexivity]. }
  rewrite H in Hf. contradiction.
Qed.

(** X15. [main] lets a run with [--local-only] or [--stats] through its
    check of the environment without [PG_PROXY_TOKEN], and the run then
    ends in the [ValueError] of [ProductionClient()] before anything is
    done: stage 1 alone cannot be run without the token of stage 2.  In
    every other mode the check asks for the token, so that [main] then
    raises only over a [LOCAL_DB_PORT] that [int] rejects. *)
Theorem local_only_needs_production_token (args : Args) :
  (args_local_only args || args_stats args = true ->
   missing_vars getenv args = [] ->
   env_set getenv "PG_PROXY_TOKEN" = false ->
   main getenv int_accepts args = RaisesValueError) /\
  (main getenv int_accepts args = RaisesValueError ->
   missing_vars getenv args = [] /\
   (int_accepts (getenv_or getenv "LOCAL_DB_PORT" "5432") = false \/
    (env_set getenv "PG_PROXY_TOKEN" = false /\
     args_local_only args || args_stats args = true))).
Proof.
  split.
  - intros Hmode Hmiss Htok. unfold main, constructs.
    rewrite Hmiss, Htok, andb_false_r. reflexivity.
  - unfold main, constructs. intros H.
    destruct (missing_vars getenv args) as [|v l] eqn:Hmiss;
      [|discriminate].
    split; [reflexivity|].
    destruct (int_accepts (getenv_or getenv "LOCAL_DB_PORT" "5432"));
      [|left; reflexivity].
    right. cbn [andb] in H.
    destruct (env_set getenv "PG_PROXY_TOKEN") eqn:Htok.
    + cbn [negb] in H.
      destruct (args_test args), (args_stats args),
        (args_local_only args), (args_production_only args);
        discriminate.
    + split; [reflexivity|].
      destruct (args_local_only args || args_stats args) eqn:Hmode;
        [reflexivity|].
      apply orb_false_elim in Hmode. destruct Hmode as [Hl Hs].
      pose proof (missing_vars_nil args Hmiss "PG_PROXY_TOKEN") as Hq.
      unfold required_vars in Hq. rewrite Hl, Hs in Hq. cbn [negb andb] in Hq.
      rewrite Hq in Htok; [discriminate|].
      apply in_or_app. right. apply in_or_app. left. right. left.
      reflexivity.
Qed.

End MainFacts.

(** ** Sensor identifiers *)

Section SensorFacts.

Local Open Scope string_scope.

(** A string is cut at the first occurrence of a character in one way
    only. *)
Lemma split_at_first (c : Ascii.ascii) (p1 p2 r1 r2 : String.string) :
  has_char c p1 = false -> has_char c p2 = false ->
  String.append p1 (String.String c r1) = String.append p2 (String.String c r2) ->
  p1 = p2 /\ r1 = r2.
Proof.
  revert p2. induction p1 as [|a p1 IH]; intros p2 H1 H2 H.
  - destruct p2 as [|b p2]; cbn in H.
    + injection H as Hr. split; [reflexivity | exact Hr].
    + injection H as Hc Hr. subst b. cbn in H2.
      rewrite Ascii.eqb_refl in H2. discriminate.
  - destruct p2 as [|b p2]; cbn in H.
    + injection H as Hc Hr. subst a. cbn in H1.
      rewrite Ascii.eqb_refl in H1. discriminate.
    + injection H as Hc Hr. subst b. cbn in H1, H2.
      apply orb_false_elim in H1. apply orb_false_elim in H2.
      destruct (IH p2 (proj2 H1) (proj2 H2) Hr) as [-> ->].
      split; reflexivity.
Qed.

Lemma target_parameter_no_dot (p : String.string) :
  existsb (String.eqb p) TARGET_PARAMETERS = true -> has_char "."%char p = false.
Proof.
  unfold TARGET_PARAMETERS. cbn [existsb]. intros H.
  repeat (apply orb_prop in H; destruct H as [H | H]);
    try (apply String.eqb_eq in H; subst p; reflexivity).
  discriminate.
Qed.

Lemma basic_filtering_In (all_series : list Description)
    (s : EcosenseSensor) :
  In s (basic_filtering all_series) ->
  String.prefix "Ecosense_" (location_identifier s) = true /\
  existsb (String.eqb (parameter s)) TARGET_PARAMETERS = true /\
  timeseries_identifier s
  = ts_identifier (parameter s) (label s) (location_identifier s).
Proof.
  unfold basic_filtering. intros H. apply in_flat_map in H.
  destruct H as (ts & Hts & Hs). apply filter_In in Hts.
  destruct Hts as [_ Hloc].
  destruct (existsb (String.eqb (ts_parameter ts)) TARGET_PARAMETERS) eqn:E;
    [|contradiction].
  destruct Hs as [<- | []]. cbn. repeat split; assumption.
Qed.

(** X16. The identifier [parameter.label@location] that the fallback
    filter of [get_ecosense_sensors] gives a sensor, and under which
    its data is stored, tells sensors apart as long as labels hold no
    [@]: two sensors of the result with such labels and the same
    identifier have the same parameter, label and location.  Every
    sensor of the result is at an Ecosense location and measures one of
    the five target parameters. *)
Theorem identifier_determines_sensor (all_series : list Description)
    (s1 s2 : EcosenseSensor) :
  In s1 (basic_filtering all_series) ->
  In s2 (basic_filtering all_series) ->
  has_char "@"%char (label s1) = false ->
  has_char "@"%char (label s2) = false ->
  timeseries_identifier s1 = timeseries_identifier s2 ->
  parameter s1 = parameter s2 /\ label s1 = label s2 /\
  location_identifier s1 = location_identifier s2 /\
  String.prefix "Ecosense_" (location_identifier s1) = true /\
  In (parameter s1) TARGET_PARAMETERS.
Proof.
  intros H1 H2 Hl1 Hl2 Hid.
  apply basic_filtering_In in H1. destruct H1 as (Hloc1 & Hp1 & Hi1).
  apply basic_filtering_In in H2. destruct H2 as (_ & Hp2 & Hi2).
  rewrite Hi1, Hi2 in Hid. unfold ts_identifier in Hid.
  change (String.append "." ?x) with (String.String "." x) in Hid.
  cbn [String.append] in Hid.
  destruct (split_at_first "."%char _ _ _ _ (target_parameter_no_dot _ Hp1)
              (target_parameter_no_dot _ Hp2) Hid) as [Hp Hrest].
  destruct (split_at_first "@"%char _ _ _ _ Hl1 Hl2 Hrest) as [Hl Hloc].
  split; [exact Hp|]. split; [exact Hl|]. split; [exact Hloc|].
  split; [exact Hloc1|].
  apply existsb_exists in Hp1. destruct Hp1 as (x & Hx & Hpx).
  apply String.eqb_eq in Hpx. subst x. exact Hx.
Qed.

End SensorFacts.

(** ** The further properties at sample inputs *)

Lemma runs_keep_rate_bounded_witness :
  rate_bounded (rate fresh_world) /\
  rate_bounded
    (rate (snd (fst (@bulk_insert unit unit limited_once [tt; tt; tt]
                       (Some 2) fresh_world)))) /\
  rate_bounded
    (rate (snd (fst (@_sync_all_data_paginated unit unit (fun r => r)
                       limited_once [tt; tt; tt] 2 false fresh_world)))).
Proof.
  split; [exact init_rate_bounded|].
  destruct (runs_keep_rate_bounded unit unit (fun r => r) limited_once
              [tt; tt; tt] fresh_world init_rate_bounded) as [Hb Hp].
  split; [apply Hb | apply Hp].
Defined.

Lemma bulk_insert_delivers_once_witness :
  0 < py_or (Some 2) (current_batch_size (rate fresh_world)) /\
  fst (fst (@bulk_insert nat nat limited_once [1; 2; 3]%nat (Some 2)
              fresh_world)) = true /\
  concat (accepted_of limited_once (posts fresh_world)
            (posted (snd (@bulk_insert nat nat limited_once [1; 2; 3]%nat
                            (Some 2) fresh_world))))
  = [1; 2; 3]%nat.
Proof.
  assert (H0 : 0 < py_or (Some 2) (current_batch_size (rate fresh_world)))
    by (cbn; lia).
  split; [exact H0|].
  pose proof (bulk_insert_delivers_once nat nat limited_once [1; 2; 3]%nat
                (Some 2) fresh_world H0) as H.
  destruct (@bulk_insert nat nat limited_once [1; 2; 3]%nat (Some 2)
              fresh_world) as [[ok w'] t] eqn:Hrun.
  assert (Hok : ok = true) by (vm_compute in Hrun; congruence).
  split; [exact Hok|]. exact (proj2 (H Hok)).
Defined.

Lemma bulk_insert_failure_keeps_prefix_witness :
  0 < py_or (Some 2) (current_batch_size (rate fresh_world)) /\
  fst (fst (@bulk_insert nat nat ok_then_down [1; 2; 3]%nat (Some 2)
              fresh_world)) = false /\
  exists pre i later,
    batch_indices [1; 2; 3]%nat 2 = pre ++ i :: later /\
    concat (accepted_of ok_then_down (posts fresh_world)
              (posted (snd (@bulk_insert nat nat ok_then_down
                              [1; 2; 3]%nat (Some 2) fresh_world))))
    = firstn (length pre * Z.to_nat 2) [1; 2; 3]%nat.
Proof.
  assert (H0 : 0 < py_or (Some 2) (current_batch_size (rate fresh_world)))
    by (cbn; lia).
  split; [exact H0|].
  pose proof (bulk_insert_failure_keeps_prefix nat nat ok_then_down
                [1; 2; 3]%nat (Some 2) fresh_world H0) as H.
  cbn zeta in H.
  destruct (@bulk_insert nat nat ok_then_down [1; 2; 3]%nat (Some 2)
              fresh_world) as [[ok w'] t] eqn:Hrun.
  assert (Hok : ok = false) by (vm_compute in Hrun; congruence).
  split; [exact Hok|].
  destruct (H Hok) as (pre & i & later & Hidx & _ & Hc & _).
  exists pre, i, later. split; [exact Hidx | exact Hc].
Defined.

Lemma paginated_run_delivers_table_witness :
  0 < 2 /\
  fst (fst (@_sync_all_data_paginated nat nat (fun r => r) limited_once
              [1; 2; 3]%nat 2 false fresh_world)) = Some true /\
  concat (accepted_of limited_once (posts fresh_world)
            (posted (snd (@_sync_all_data_paginated nat nat (fun r => r)
                            limited_once [1; 2; 3]%nat 2 false
                            fresh_world))))
  = [1; 2; 3]%nat.
Proof.
  split; [lia|].
  pose proof (paginated_run_delivers_table nat nat (fun r => r)
                limited_once [1; 2; 3]%nat 2 fresh_world ltac:(lia)) as H.
  destruct (@_sync_all_data_paginated nat nat (fun r => r) limited_once
              [1; 2; 3]%nat 2 false fresh_world) as [[r w'] t] eqn:Hrun.
  assert (Hr : r = Some true) by (vm_compute in Hrun; congruence).
  split; [exact Hr|].
  destruct H as (_ & H & _). exact (H Hr).
Defined.

Lemma negative_batch_size_sends_nothing_witness :
  -1 < 0 /\
  @bulk_insert nat nat always_ok [1; 2; 3]%nat (Some (-1)) fresh_world
  = (true, fresh_world, []) /\
  fst (fst (@_sync_all_data_paginated nat nat (fun r => r) always_ok
              [1; 2; 3]%nat (-1) false fresh_world)) = Some true /\
  posted (snd (@_sync_all_data_paginated nat nat (fun r => r) always_ok
                 [1; 2; 3]%nat (-1) false fresh_world)) = [].
Proof.
  split; [lia|].
  destruct (negative_batch_size_sends_nothing nat nat (fun r => r)
              always_ok [1; 2; 3]%nat (-1) fresh_world ltac:(lia))
    as [Hb Hp].
  split; [apply Hb|]. specialize (Hp false).
  destruct (@_sync_all_data_paginated nat nat (fun r => r) always_ok
              [1; 2; 3]%nat (-1) false fresh_world) as [[r w'] t].
  destruct Hp as (Hr & _ & Ht). split; [exact Hr | exact Ht].
Defined.


Lemma stage2_unreachable_or_dry_sends_nothing_witness :
  (test_connection (Status 503) = false \/ false = true) /\
  @sync_local_to_production nat nat (fun r => r) always_ok [1; 2; 3]%nat
    (Status 503) (fun _ => [1; 2]%nat) (fun _ => String.EmptyString)
    2 false None fresh_world
  = (Some false, fresh_world, []).
Proof.
  split; [left; reflexivity|].
  pose proof (stage2_unreachable_or_dry_sends_nothing nat nat (fun r => r)
                always_ok [1; 2; 3]%nat (Status 503) (fun _ => [1; 2]%nat)
                (fun _ => String.EmptyString) 2 false None fresh_world
                (or_introl eq_refl)) as H.
  destruct (@sync_local_to_production nat nat (fun r => r) always_ok
              [1; 2; 3]%nat (Status 503) (fun _ => [1; 2]%nat)
              (fun _ => String.EmptyString) 2 false None fresh_world)
    as [[r w'] t].
  destruct H as (_ & Hw & Hr & Ht). rewrite Hw, Hr, (Ht eq_refl).
  reflexivity.
Defined.

Lemma recent_sync_sends_first_ten_batches_witness :
  0 < 1 /\ test_connection (Status 200) = true /\
  fst (fst (@sync_local_to_production nat nat (fun r => r) always_ok []
              (Status 200) (fun _ => seq 1 12) (fun _ => String.EmptyString)
              1 false (Some 7) fresh_world)) = Some true /\
  concat (accepted_of always_ok (posts fresh_world)
            (posted (snd (@sync_local_to_production nat nat (fun r => r)
                            always_ok [] (Status 200) (fun _ => seq 1 12)
                            (fun _ => String.EmptyString) 1 false (Some 7)
                            fresh_world))))
  = [1; 2; 3; 4; 5; 6; 7; 8; 9; 10]%nat.
Proof.
  split; [lia|]. split; [reflexivity|].
  pose proof (recent_sync_sends_first_ten_batches nat nat (fun r => r)
                always_ok [] (Status 200) (fun _ => seq 1 12)
                (fun _ => String.EmptyString) 1 7 fresh_world
                ltac:(lia) eq_refl) as H.
  cbn zeta in H.
  destruct (@sync_local_to_production nat nat (fun r => r) always_ok []
              (Status 200) (fun _ => seq 1 12) (fun _ => String.EmptyString)
              1 false (Some 7) fresh_world) as [[r w'] t] eqn:Hrun.
  assert (Hr : r = Some true) by (vm_compute in Hrun; congruence).
  split; [exact Hr|].
  destruct H as (_ & _ & _ & H). cbn [snd]. rewrite (H Hr). reflexivity.
Defined.


Lemma identifier_determines_sensor_witness :
  unique_id (nth 0 (basic_filtering sample_series)
               (mkEcosenseSensor String.EmptyString String.EmptyString
                  String.EmptyString String.EmptyString String.EmptyString
                  String.EmptyString))
  = "u1"%string /\
  unique_id (nth 1 (basic_filtering sample_series)
               (mkEcosenseSensor String.EmptyString String.EmptyString
                  String.EmptyString String.EmptyString String.EmptyString
                  String.EmptyString))
  = "u2"%string /\
  length (basic_filtering sample_series) = 2%nat /\
  label (nth 0 (basic_filtering sample_series)
           (mkEcosenseSensor String.EmptyString String.EmptyString
              String.EmptyString String.EmptyString String.EmptyString
              String.EmptyString))
  = label (nth 1 (basic_filtering sample_series)
             (mkEcosenseSensor String.EmptyString String.EmptyString
                String.EmptyString String.EmptyString String.EmptyString
                String.EmptyString)).
Proof.
  split; [reflexivity|]. split; [reflexivity|]. split; [reflexivity|].
  set (none := mkEcosenseSensor String.EmptyString String.EmptyString
                 String.EmptyString String.EmptyString String.EmptyString
                 String.EmptyString).
  assert (H1 : In (nth 0 (basic_filtering sample_series) none)
                  (basic_filtering sample_series))
    by (left; reflexivity).
  assert (H2 : In (nth 1 (basic_filtering sample_series) none)
                  (basic_filtering sample_series))
    by (right; left; reflexivity).
  exact (proj1 (proj2 (identifier_determines_sensor sample_series
                         (nth 0 (basic_filtering sample_series) none)
                         (nth 1 (basic_filtering sample_series) none)
                         H1 H2 eq_refl eq_refl eq_refl))).
Defined.

Lemma transient_failures_do_not_fail_run_witness :
  0 < 2 /\
  limited_once 0 = Status 429 /\
  fst (fst (@_sync_all_data_paginated nat nat (fun r => r) limited_once
              [1; 2; 3]%nat 2 false fresh_world)) = Some true /\
  concat (accepted_of limited_once (posts fresh_world)
            (posted (snd (@_sync_all_data_paginated nat nat (fun r => r)
                            limited_once [1; 2; 3]%nat 2 false
                            fresh_world))))
  = [1; 2; 3]%nat.
Proof.
  split; [lia|]. split; [reflexivity|].
  assert (Hserver : forall p, exists m,
               (m < 5)%nat /\ limited_once (p + m) = Status 200).
  { intros [|p]; [exists 1%nat | exists 0%nat]; split; try lia; reflexivity. }
  pose proof (transient_failures_do_not_fail_run nat nat (fun r => r)
                limited_once [1; 2; 3]%nat 2 fresh_world ltac:(lia) Hserver)
    as H.
  destruct (@_sync_all_data_paginated nat nat (fun r => r) limited_once
              [1; 2; 3]%nat 2 false fresh_world) as [[r w'] t].
  exact H.
Defined.
